(** * The client-side session and conversation state of the chat application

    A shallow embedding of [frontend/src/apiClient.ts], of the session
    provider (AuthContext: [AuthProvider], [login], [register], [logout]) and
    of the conversation store (ChatContext: [ChatProvider], [sendMessage],
    [deleteConversation], [createNewConversation], the search query).

    The asynchronous functions of the source are programs of a small monad
    [Proc] whose effects are the ones the source has: synchronous updates of
    the browser and React state, reads of the clock, thrown errors, and
    [await] on an HTTP request.  [run] executes such a program against an
    environment that answers the requests, supplies the clock, and may change
    the state while the program is suspended on an [await]. *)

From Stdlib Require Import ZArith NArith List Ascii String Bool Lia.
From Stdlib Require Import DecimalString DecimalZ.
From stdpp Require Import base option list gmap.

Local Open Scope list_scope.

(** ** JavaScript strings

    A JavaScript string is a sequence of UTF-16 code units. *)

Abbreviation char16 := N.
Abbreviation jsstring := (list N).

(** The code units of an ASCII literal of the source. *)
Definition js (s : string) : jsstring :=
  List.map N_of_ascii (list_ascii_of_string s).
Arguments js s%_string.

(** [WhiteSpace] and [LineTerminator] code units: what
    [String.prototype.trim] strips. *)
Definition isWhiteSpace (c : char16) : bool :=
  (N.leb 9 c && N.leb c 13) || N.eqb c 32 || N.eqb c 160 || N.eqb c 5760
  || (N.leb 8192 c && N.leb c 8202) || N.eqb c 8232 || N.eqb c 8233
  || N.eqb c 8239 || N.eqb c 8287 || N.eqb c 12288 || N.eqb c 65279.

Fixpoint trimStart (s : jsstring) : jsstring :=
  match s with
  | c :: s' => if isWhiteSpace c then trimStart s' else s
  | [] => []
  end.

Definition trimEnd (s : jsstring) : jsstring := rev (trimStart (rev s)).

Definition trim (s : jsstring) : jsstring := trimEnd (trimStart s).

Fixpoint startsWith (s search : jsstring) : bool :=
  match search, s with
  | [], _ => true
  | _ :: _, [] => false
  | a :: search', b :: s' => N.eqb a b && startsWith s' search'
  end.

(** [s.includes(search)]: [search] occurs somewhere in [s]. *)
Fixpoint includes (s search : jsstring) : bool :=
  startsWith s search ||
  match s with
  | [] => false
  | _ :: s' => includes s' search
  end.

(** [n.toString()] of an integral number: its decimal digits, with a sign
    when negative. *)
Definition toString (n : Z) : jsstring :=
  js (NilEmpty.string_of_int (Z.to_int n)).

(** ** JavaScript values read from a JSON body

    A text field of a response body is absent ([undefined]), [null], or a
    string. *)

Inductive JsValue : Type :=
| JsUndefined
| JsNull
| JsStr (s : jsstring).

(** Truthiness of a string: [!!s]. *)
Definition truthyStr (s : jsstring) : bool :=
  match s with [] => false | _ :: _ => true end.

(** Truthiness, as [if (v)] and [v || w] test it. *)
Definition truthy (v : JsValue) : bool :=
  match v with
  | JsStr s => truthyStr s
  | JsUndefined | JsNull => false
  end.

(** String conversion, as [localStorage.setItem] and template literals do. *)
Definition String_ (v : JsValue) : jsstring :=
  match v with
  | JsUndefined => js "undefined"
  | JsNull => js "null"
  | JsStr s => s
  end.

(** ** Data model *)

Module User.
Record t := mk { id : Z; email : jsstring; username : jsstring }.
End User.

Inductive Role := role_user | role_assistant | role_system.

Module Message.
Record t := mk {
  id : jsstring;
  content : jsstring;
  role : Role;
  timestamp : jsstring
}.
End Message.

Module Conversation.
Record t := mk {
  id : jsstring;
  title : jsstring;
  messages : list Message.t;
  createdAt : jsstring;
  updatedAt : jsstring;
  summary : option jsstring
}.
End Conversation.

(** [currentConversation?.id]: [undefined] when no conversation is active. *)
Definition conversationId (c : option Conversation.t) : option jsstring :=
  Conversation.id <$> c.

(** [!!currentConversation?.id] *)
Definition hasId (c : option Conversation.t) : bool :=
  match conversationId c with
  | Some i => truthyStr i
  | None => false
  end.

(** The payload of a decoded token, as the session provider reads it. *)
Record Claims := {
  user_id : Z;
  claim_email : jsstring;
  claim_username : jsstring
}.

(** ** HTTP requests, responses and errors *)

Inductive Method := GET | POST | DELETE.

Inductive Body :=
| NoBody
| CredentialsBody (username password : jsstring)
| RegisterBody (email username password password2 : jsstring)
| TitleBody (title : jsstring)
| ChatBody (content conversation_id : jsstring)
| SearchBody (search_query conversation_id : jsstring).

(** An axios request configuration, as far as the client uses it. *)
Record Config := {
  url : option jsstring;
  method : Method;
  data : Body;
  Authorization : option jsstring
}.

(** Response bodies of the backend.  A field that a body does not have
    reads as [undefined]. *)
Inductive ResponseData :=
| TokenData (access refresh : JsValue)
| UserData (u : User.t)
| ConversationData (c : Conversation.t)
| ConversationsData (l : list Conversation.t)
| ChatData (response : JsValue) (search_results : option (list JsValue))
| EmptyData.

Definition data_access (d : ResponseData) : JsValue :=
  match d with TokenData a _ => a | _ => JsUndefined end.

Definition data_refresh (d : ResponseData) : JsValue :=
  match d with TokenData _ r => r | _ => JsUndefined end.

Definition data_response (d : ResponseData) : JsValue :=
  match d with ChatData r _ => r | _ => JsUndefined end.

Definition data_search_results (d : ResponseData) : option (list JsValue) :=
  match d with ChatData _ r => r | _ => None end.

(** The body of an error response: [error.response.data]. *)
Record ErrorData := {
  detail : JsValue;
  message : JsValue
}.

(** The three failures that the response interceptor of [apiClient.ts]
    tells apart and rejects with: a response outside 2xx, no response, and
    an error while setting the request up. *)
Inductive ApiError :=
| ServerError (status : Z) (data : option ErrorData)
| NoResponse
| SetupError.

(** What a [catch] clause of the client can receive: a rejection of the
    HTTP client, or the error that [jwtDecode] throws. *)
Inductive JsError :=
| AxiosError (e : ApiError)
| InvalidTokenError.

(** [error.response?.data?.detail] and [error.response?.data?.message] *)
Definition error_detail (error : JsError) : JsValue :=
  match error with
  | AxiosError (ServerError _ (Some d)) => detail d
  | _ => JsUndefined
  end.

Definition error_message (error : JsError) : JsValue :=
  match error with
  | AxiosError (ServerError _ (Some d)) => message d
  | _ => JsUndefined
  end.

Inductive Result :=
| Fulfilled (d : ResponseData)
| Failed (e : ApiError).

(** ** Observable effects

    What a run leaves behind for an observer: the requests that left the
    client, the notifications ([toast]), the invalidations of the query
    cache, and the errors that the two providers write to the console (the
    logging of the interceptors is left out). *)

Inductive Event :=
| Request (cfg : Config)
| ToastSuccess (msg : jsstring)
| ToastError (msg : jsstring)
| ConsoleError (label : jsstring)
| InvalidateQueries (queryKey : jsstring).

Definition isRequest (e : Event) : bool :=
  match e with Request _ => true | _ => false end.

Definition isToast (e : Event) : bool :=
  match e with ToastSuccess _ | ToastError _ => true | _ => false end.

Definition isInvalidate (e : Event) : bool :=
  match e with InvalidateQueries _ => true | _ => false end.

(** ** The state of the page *)

Record World := {
  (* AuthProvider *)
  user : option User.t;
  isLoading : bool;
  (* ChatProvider *)
  currentConversation : option Conversation.t;
  searchQuery : jsstring;
  isSending : bool;
  (* the browser's localStorage *)
  localStorage : gmap jsstring jsstring;
  (* api.defaults.headers.common['Authorization'] *)
  defaultAuthorization : option jsstring;
  (* the query cache entries of the search query, by (query, id) *)
  searchCache : gmap (jsstring * option jsstring) (list JsValue);
  (* number of clock readings taken so far *)
  ticks : nat;
  (* everything observable that happened, oldest first *)
  trace : list Event
}.

Definition setUser (u : option User.t) (w : World) : World :=
  {| user := u; isLoading := isLoading w;
     currentConversation := currentConversation w;
     searchQuery := searchQuery w; isSending := isSending w;
     localStorage := localStorage w;
     defaultAuthorization := defaultAuthorization w;
     searchCache := searchCache w; ticks := ticks w; trace := trace w |}.

Definition setIsLoading (b : bool) (w : World) : World :=
  {| user := user w; isLoading := b;
     currentConversation := currentConversation w;
     searchQuery := searchQuery w; isSending := isSending w;
     localStorage := localStorage w;
     defaultAuthorization := defaultAuthorization w;
     searchCache := searchCache w; ticks := ticks w; trace := trace w |}.

Definition setCurrentConversation (c : option Conversation.t) (w : World)
  : World :=
  {| user := user w; isLoading := isLoading w;
     currentConversation := c;
     searchQuery := searchQuery w; isSending := isSending w;
     localStorage := localStorage w;
     defaultAuthorization := defaultAuthorization w;
     searchCache := searchCache w; ticks := ticks w; trace := trace w |}.

Definition setSearchQuery (q : jsstring) (w : World) : World :=
  {| user := user w; isLoading := isLoading w;
     currentConversation := currentConversation w;
     searchQuery := q; isSending := isSending w;
     localStorage := localStorage w;
     defaultAuthorization := defaultAuthorization w;
     searchCache := searchCache w; ticks := ticks w; trace := trace w |}.

Definition setIsSending (b : bool) (w : World) : World :=
  {| user := user w; isLoading := isLoading w;
     currentConversation := currentConversation w;
     searchQuery := searchQuery w; isSending := b;
     localStorage := localStorage w;
     defaultAuthorization := defaultAuthorization w;
     searchCache := searchCache w; ticks := ticks w; trace := trace w |}.

Definition setLocalStorage (st : gmap jsstring jsstring) (w : World) : World :=
  {| user := user w; isLoading := isLoading w;
     currentConversation := currentConversation w;
     searchQuery := searchQuery w; isSending := isSending w;
     localStorage := st;
     defaultAuthorization := defaultAuthorization w;
     searchCache := searchCache w; ticks := ticks w; trace := trace w |}.

Definition setDefaultAuthorization (h : option jsstring) (w : World) : World :=
  {| user := user w; isLoading := isLoading w;
     currentConversation := currentConversation w;
     searchQuery := searchQuery w; isSending := isSending w;
     localStorage := localStorage w;
     defaultAuthorization := h;
     searchCache := searchCache w; ticks := ticks w; trace := trace w |}.

Definition setSearchCache
  (c : gmap (jsstring * option jsstring) (list JsValue)) (w : World) : World :=
  {| user := user w; isLoading := isLoading w;
     currentConversation := currentConversation w;
     searchQuery := searchQuery w; isSending := isSending w;
     localStorage := localStorage w;
     defaultAuthorization := defaultAuthorization w;
     searchCache := c; ticks := ticks w; trace := trace w |}.

Definition tick (w : World) : World :=
  {| user := user w; isLoading := isLoading w;
     currentConversation := currentConversation w;
     searchQuery := searchQuery w; isSending := isSending w;
     localStorage := localStorage w;
     defaultAuthorization := defaultAuthorization w;
     searchCache := searchCache w; ticks := S (ticks w); trace := trace w |}.

Definition emit (e : Event) (w : World) : World :=
  {| user := user w; isLoading := isLoading w;
     currentConversation := currentConversation w;
     searchQuery := searchQuery w; isSending := isSending w;
     localStorage := localStorage w;
     defaultAuthorization := defaultAuthorization w;
     searchCache := searchCache w; ticks := ticks w;
     trace := trace w ++ [e] |}.

(** The page as it is first loaded, with what the browser kept in
    [localStorage]: the initial values of the [useState] hooks. *)
Definition initialWorld (st : gmap jsstring jsstring) : World :=
  {| user := None; isLoading := true;
     currentConversation := None; searchQuery := []; isSending := false;
     localStorage := st; defaultAuthorization := None;
     searchCache := ∅; ticks := 0; trace := [] |}.

(** ** Programs with effects

    A program returns, throws, or goes on after one of: a synchronous step
    on the state of the page, a reading of the clock ([Date.now()]), a
    formatted reading of the clock ([new Date().toISOString()]), a call of
    the token decoder, or an [await] on the HTTP request [cfg], which
    suspends the program until the backend has answered. *)

Inductive Proc (A : Type) : Type :=
| Ret (a : A)
| Throw (e : JsError)
| Sync {B : Type} (f : World → B * World) (k : B → Proc A)
| DateNow (k : Z → Proc A)
| NewDateISO (k : jsstring → Proc A)
| JwtDecode (token : jsstring) (k : option Claims → Proc A)
| Await (cfg : Config) (k : Result → Proc A).

Arguments Ret {A} a.
Arguments Throw {A} e.
Arguments Sync {A B} f k.
Arguments DateNow {A} k.
Arguments NewDateISO {A} k.
Arguments JwtDecode {A} token k.
Arguments Await {A} cfg k.

Fixpoint bind {A B : Type} (m : Proc A) (f : A → Proc B) : Proc B :=
  match m with
  | Ret a => f a
  | Throw e => Throw e
  | Sync g k => Sync g (λ b, bind (k b) f)
  | DateNow k => DateNow (λ t, bind (k t) f)
  | NewDateISO k => NewDateISO (λ t, bind (k t) f)
  | JwtDecode token k => JwtDecode token (λ c, bind (k c) f)
  | Await cfg k => Await cfg (λ r, bind (k r) f)
  end.

#[export] Instance Proc_ret : MRet Proc := @Ret.
#[export] Instance Proc_bind : MBind Proc := λ A B f m, bind m f.

(** [try { m } catch (error) { h error }] *)
Fixpoint try_catch {A : Type} (m : Proc A) (h : JsError → Proc A) : Proc A :=
  match m with
  | Ret a => Ret a
  | Throw e => h e
  | Sync g k => Sync g (λ b, try_catch (k b) h)
  | DateNow k => DateNow (λ t, try_catch (k t) h)
  | NewDateISO k => NewDateISO (λ t, try_catch (k t) h)
  | JwtDecode token k => JwtDecode token (λ c, try_catch (k c) h)
  | Await cfg k => Await cfg (λ r, try_catch (k r) h)
  end.

(** [try { m } finally { fin }]: [fin] runs on both exits, and the exit of
    [m] is kept. *)
Fixpoint try_finally {A : Type} (m : Proc A) (fin : Proc unit) : Proc A :=
  match m with
  | Ret a => bind fin (λ _, Ret a)
  | Throw e => bind fin (λ _, Throw e)
  | Sync g k => Sync g (λ b, try_finally (k b) fin)
  | DateNow k => DateNow (λ t, try_finally (k t) fin)
  | NewDateISO k => NewDateISO (λ t, try_finally (k t) fin)
  | JwtDecode token k => JwtDecode token (λ c, try_finally (k c) fin)
  | Await cfg k => Await cfg (λ r, try_finally (k r) fin)
  end.

Definition get {B : Type} (f : World → B) : Proc B :=
  Sync (λ w, (f w, w)) Ret.

Definition modify (f : World → World) : Proc unit :=
  Sync (λ w, (tt, f w)) Ret.

(** [await p] for the promise of an HTTP call: a rejection is thrown. *)
Definition await (cfg : Config) : Proc ResponseData :=
  Await cfg (λ r, match r with
                  | Fulfilled d => Ret d
                  | Failed e => Throw (AxiosError e)
                  end).

(** [jwtDecode(token)], which throws on a token that it cannot decode. *)
Definition jwtDecode (token : jsstring) : Proc Claims :=
  JwtDecode token (λ r, match r with
                        | Some c => Ret c
                        | None => Throw InvalidTokenError
                        end).

Definition toast_success (msg : jsstring) : Proc unit :=
  modify (emit (ToastSuccess msg)).

Definition toast_error (msg : jsstring) : Proc unit :=
  modify (emit (ToastError msg)).

Definition console_error (label : jsstring) : Proc unit :=
  modify (emit (ConsoleError label)).

(** [queryClient.invalidateQueries({ queryKey: [key] })] *)
Definition invalidateQueries (key : jsstring) : Proc unit :=
  modify (emit (InvalidateQueries key)).

Definition localStorage_getItem (key : jsstring) : Proc (option jsstring) :=
  get (λ w, localStorage w !! key).

Definition localStorage_setItem (key value : jsstring) : Proc unit :=
  modify (λ w, setLocalStorage (<[key := value]> (localStorage w)) w).

Definition localStorage_removeItem (key : jsstring) : Proc unit :=
  modify (λ w, setLocalStorage (delete key (localStorage w)) w).

(** ** apiClient.ts *)

(** [config.url?.includes(s)], read as a condition. *)
Definition urlIncludes (config : Config) (s : jsstring) : bool :=
  match url config with
  | Some u => includes u s
  | None => false
  end.

Definition withAuthorization (h : jsstring) (config : Config) : Config :=
  {| url := url config; method := method config; data := data config;
     Authorization := Some h |}.

(** The request interceptor, given the contents of [localStorage]. *)
Definition requestInterceptor (storage : gmap jsstring jsstring)
  (config : Config) : Config :=
  if negb (urlIncludes config (js "token"))
     && negb (urlIncludes config (js "login"))
  then
    match storage !! js "access_token" with
    | Some token =>
        if truthyStr token
        then withAuthorization (js "Bearer " ++ token) config
        else config
    | None => config
    end
  else config.

(** The headers of [api.defaults] are merged into a request that does not
    set them itself. *)
Definition mergeDefaults (w : World) (config : Config) : Config :=
  match Authorization config with
  | Some _ => config
  | None =>
      {| url := url config; method := method config; data := data config;
         Authorization := defaultAuthorization w |}
  end.

(** The configuration that [api.get], [api.post] and [api.delete] build
    from their arguments. *)
Definition getConfig (u : jsstring) : Config :=
  {| url := Some u; method := GET; data := NoBody; Authorization := None |}.

Definition postConfig (u : jsstring) (body : Body) : Config :=
  {| url := Some u; method := POST; data := body; Authorization := None |}.

Definition deleteConfig (u : jsstring) : Config :=
  {| url := Some u; method := DELETE; data := NoBody;
     Authorization := None |}.

Definition api_get (u : jsstring) : Proc ResponseData :=
  await (getConfig u).

Definition api_post (u : jsstring) (body : Body) : Proc ResponseData :=
  await (postConfig u body).

Definition api_delete (u : jsstring) : Proc ResponseData :=
  await (deleteConfig u).

(** ** Running a program *)

(** The environment of the page: the backend, which answers a request
    knowing everything that happened before; the clock, by reading;
    the date formatting and the token decoding of the platform;
    whatever other handlers do to the state while a program is suspended
    on an [await]; and for how many renders of its own updates the load
    effect of [ChatProvider] is followed within one step of a session (a
    backend that names another conversation in every answer keeps that
    effect running for ever). *)
Record Env := {
  server : list Event → Config → Result;
  clock : nat → Z;
  toISOString : Z → jsstring;
  decode : jsstring → option Claims;
  meanwhile : World → World;
  renders : nat
}.

Inductive Outcome (A : Type) : Type :=
| Resolved (a : A)
| Rejected (e : JsError).

Arguments Resolved {A} a.
Arguments Rejected {A} e.

Fixpoint run {A : Type} (env : Env) (m : Proc A) (w : World)
  : Outcome A * World :=
  match m with
  | Ret a => (Resolved a, w)
  | Throw e => (Rejected e, w)
  | Sync f k => let '(b, w') := f w in run env (k b) w'
  | DateNow k => run env (k (clock env (ticks w))) (tick w)
  | NewDateISO k =>
      run env (k (toISOString env (clock env (ticks w)))) (tick w)
  | JwtDecode token k => run env (k (decode env token)) w
  | Await cfg k =>
      let sent := requestInterceptor (localStorage w) (mergeDefaults w cfg) in
      let r := server env (trace w) sent in
      run env (k r) (meanwhile env (emit (Request sent) w))
  end.

(** ** AuthContext: the session provider *)

Definition claimsUser (decoded : Claims) : User.t :=
  {| User.id := user_id decoded;
     User.email := claim_email decoded;
     User.username := claim_username decoded |}.

(** The effect that [AuthProvider] runs once, when it is mounted. *)
Definition AuthProvider_init : Proc unit :=
  token ← localStorage_getItem (js "access_token");
  match token with
  | Some token =>
      if truthyStr token then
        try_catch
          (decoded ← jwtDecode token;
           modify (setUser (Some (claimsUser decoded))))
          (λ error,
            console_error (js "Failed to decode token:");;
            localStorage_removeItem (js "access_token");;
            localStorage_removeItem (js "refresh_token"))
      else Ret tt
  | None => Ret tt
  end;;
  modify (setIsLoading false).

(** [a || b] on values, and [v || s] with a string literal last. *)
Definition or_ (a b : JsValue) : JsValue := if truthy a then a else b.

Definition orElse (v : JsValue) (s : jsstring) : jsstring :=
  if truthy v then String_ v else s.

(** [profileResponse.data], the profile of the current user. *)
Definition data_user (d : ResponseData) : option User.t :=
  match d with UserData u => Some u | _ => None end.

Definition loginFallback : jsstring :=
  js "Login failed. Please check your credentials and try again.".

Definition login (username password : jsstring) : Proc bool :=
  try_catch
    (response ← api_post (js "/auth/token/")
                  (CredentialsBody username password);
     let access := data_access response in
     let refresh := data_refresh response in
     localStorage_setItem (js "access_token") (String_ access);;
     localStorage_setItem (js "refresh_token") (String_ refresh);;
     modify (setDefaultAuthorization (Some (js "Bearer " ++ String_ access)));;
     profileResponse ← api_get (js "/api/users/me/");
     modify (setUser (data_user profileResponse));;
     toast_success (js "Logged in successfully!");;
     Ret true)
    (λ error,
      console_error (js "Login error:");;
      let errorMessage :=
        orElse (or_ (error_detail error) (error_message error))
               loginFallback in
      toast_error errorMessage;;
      Ret false).

Definition registerFallback : jsstring :=
  js "Registration failed. Please check your details and try again.".

Definition register (email username password : jsstring) : Proc bool :=
  try_catch
    (_ ← api_post (js "/api/users/register/")
           (RegisterBody email username password password);
     toast_success (js "Registration successful! Please log in.");;
     Ret true)
    (λ error,
      console_error (js "Registration error:");;
      let errorMessage :=
        orElse (or_ (error_detail error) (error_message error))
               registerFallback in
      toast_error errorMessage;;
      Ret false).

Definition logout : Proc unit :=
  localStorage_removeItem (js "access_token");;
  localStorage_removeItem (js "refresh_token");;
  modify (setUser None);;
  toast_success (js "Logged out successfully").

(** [isAuthenticated: !!user] *)
Definition isAuthenticated (w : World) : bool :=
  match user w with Some _ => true | None => false end.

(** ** ChatContext: the conversation store

    The callbacks of [ChatProvider] close over the [currentConversation] of
    the render that created them: it is their first argument here.  A state
    setter that is given a function ([prev => ...]) reads the state at the
    time of the update instead. *)

Definition withMessages (c : Conversation.t) (ms : list Message.t)
  : Conversation.t :=
  {| Conversation.id := Conversation.id c;
     Conversation.title := Conversation.title c;
     Conversation.messages := ms;
     Conversation.createdAt := Conversation.createdAt c;
     Conversation.updatedAt := Conversation.updatedAt c;
     Conversation.summary := Conversation.summary c |}.

(** [messages: currentConversation?.messages || []] *)
Definition messages (w : World) : list Message.t :=
  match currentConversation w with
  | Some c => Conversation.messages c
  | None => []
  end.

Definition createNewConversation : Proc ResponseData :=
  data ← api_post (js "/chat/conversations/")
           (TitleBody (js "New Conversation"));
  invalidateQueries (js "conversations");;
  Ret data.

Definition deleteConversation (currentConversation : option Conversation.t)
  (id : jsstring) : Proc unit :=
  _ ← api_delete (js "/chat/conversations/" ++ id ++ js "/");
  (if decide (conversationId currentConversation = Some id)
   then modify (setCurrentConversation None)
   else Ret tt);;
  invalidateQueries (js "conversations").

(** The update [prev => ...] of [sendMessage].  Its caller has tested
    [response], which is a string here. *)
Definition appendExchange (content : jsstring) (response : JsValue)
  : Proc unit :=
  prev ← get currentConversation;
  match prev with
  | None => modify (setCurrentConversation None)
  | Some prev =>
      t1 ← DateNow Ret;
      ts1 ← NewDateISO Ret;
      t2 ← DateNow Ret;
      ts2 ← NewDateISO Ret;
      modify (setCurrentConversation (Some (withMessages prev
        (Conversation.messages prev ++
         [ {| Message.id := toString t1;
              Message.content := trim content;
              Message.role := role_user;
              Message.timestamp := ts1 |};
           {| Message.id := toString (t2 + 1);
              Message.content := String_ response;
              Message.role := role_assistant;
              Message.timestamp := ts2 |} ]))))
  end.

Definition sendMessage (currentConversation : option Conversation.t)
  (content : jsstring) : Proc unit :=
  match currentConversation with
  | Some cur =>
      if negb (truthyStr (trim content))
         || negb (truthyStr (Conversation.id cur))
      then Ret tt
      else
        modify (setIsSending true);;
        try_finally
          (try_catch
             (data ← api_post (js "/chat/")
                      (ChatBody (trim content) (Conversation.id cur));
              (if truthy (data_response data)
               then appendExchange content (data_response data)
               else Ret tt);;
              invalidateQueries (js "conversations"))
             (λ error,
               console_error (js "Error sending message:");;
               toast_error (js "Failed to send message")))
          (modify (setIsSending false))
  | None => Ret tt
  end.

(** [data] of a fetched conversation. *)
Definition data_conversation (d : ResponseData) : option Conversation.t :=
  match d with ConversationData c => Some c | _ => None end.

Definition loadConversation (id : jsstring) : Proc unit :=
  try_catch
    (data ← api_get (js "/conversations/" ++ id ++ js "/");
     modify (setCurrentConversation (data_conversation data)))
    (λ error,
      console_error (js "Error loading conversation:");;
      toast_error (js "Failed to load conversation")).

(** The effect that follows a change of [currentConversation?.id]. *)
Definition loadEffect (currentConversation : option Conversation.t)
  : Proc unit :=
  match currentConversation with
  | Some cur =>
      if truthyStr (Conversation.id cur)
      then loadConversation (Conversation.id cur)
      else Ret tt
  | None => Ret tt
  end.

(** *** The render cycle

    An update of the state is followed by a render, and [useEffect] runs the
    effect above after every render whose [currentConversation?.id] is not
    that of the render before.  The effect does not wait for
    [loadConversation]: nothing that is thrown there reaches the program
    that made the update.  Here the effect is run to its end at the update
    that starts it; in this provider no program does anything after an
    update that makes the effect send a request (the update of
    [deleteConversation] closes the conversation, and the one of
    [sendMessage] keeps the id). *)

(** The conversation of the new render, when the update from [w] to [w']
    changes [currentConversation?.id]. *)
Definition idChanged (w w' : World) : option (option Conversation.t) :=
  if decide (conversationId (currentConversation w')
             = conversationId (currentConversation w))
  then None
  else Some (currentConversation w').

(** [m], with [effect] run after each of its updates that changes the id. *)
Fixpoint observed {A : Type} (effect : option Conversation.t → Proc unit)
  (m : Proc A) : Proc A :=
  match m with
  | Ret a => Ret a
  | Throw e => Throw e
  | Sync f k =>
      Sync (λ w, let '(b, w') := f w in ((b, idChanged w w'), w'))
        (λ r, match r.2 with
              | Some c =>
                  try_catch (effect c) (λ _, Ret tt);;
                  observed effect (k r.1)
              | None => observed effect (k r.1)
              end)
  | DateNow k => DateNow (λ t, observed effect (k t))
  | NewDateISO k => NewDateISO (λ t, observed effect (k t))
  | JwtDecode token k => JwtDecode token (λ c, observed effect (k c))
  | Await cfg k => Await cfg (λ r, observed effect (k r))
  end.

(** The load effect updates the state that it depends on, so that its own
    update is rendered in the same way.  [rendered renders m] follows that
    for [renders] updates of the effect; the update after those is made and
    not followed further. *)
Fixpoint rendered (renders : nat) {A : Type} (m : Proc A) : Proc A :=
  observed
    (λ c, match renders with
          | 0 => loadEffect c
          | S renders' => rendered renders' (loadEffect c)
          end) m.

(** *** The search query

    [useQuery] with key [['search', searchQuery, currentConversation?.id]]:
    the query function runs only while the query is enabled, what it returns
    is cached under the key of the render that started it, and the hook
    gives the cached data of the current key, here with [[]] as default. *)

Definition searchEnabled (searchQuery : jsstring)
  (currentConversation : option Conversation.t) : bool :=
  truthyStr (trim searchQuery) && hasId currentConversation.

Definition searchQueryFn (searchQuery : jsstring)
  (currentConversation : option Conversation.t) : Proc (list JsValue) :=
  match currentConversation with
  | Some cur =>
      if negb (truthyStr (trim searchQuery))
         || negb (truthyStr (Conversation.id cur))
      then Ret []
      else
        data ← api_post (js "/chat/")
                 (SearchBody searchQuery (Conversation.id cur));
        Ret (default [] (data_search_results data))
  | None => Ret []
  end.

Definition searchKey (w : World) : jsstring * option jsstring :=
  (searchQuery w, conversationId (currentConversation w)).

(** What the observer of the search query does after a render. *)
Definition searchObserver (searchQuery : jsstring)
  (currentConversation : option Conversation.t) : Proc unit :=
  if searchEnabled searchQuery currentConversation then
    try_catch
      (results ← searchQueryFn searchQuery currentConversation;
       modify (λ w, setSearchCache
         (<[(searchQuery, conversationId currentConversation) := results]>
            (searchCache w)) w))
      (λ error, Ret tt)
  else Ret tt.

(** [searchResults], the [data] of the search query with its default. *)
Definition searchResults (w : World) : list JsValue :=
  default [] (searchCache w !! searchKey w).

(** *** A session of the page: user actions and the effects after them *)

Inductive Action :=
| SetSearchQuery (q : jsstring)
| SetCurrentConversation (c : option Conversation.t)
| SendMessage (content : jsstring)
| DeleteConversation (id : jsstring)
| CreateNewConversation
| Mount
| Login (username password : jsstring)
| Register (email username password : jsstring)
| Logout.

(** What the action itself runs, with the callbacks of the render [w]. *)
Definition perform (a : Action) (w : World) : Proc unit :=
  match a with
  | SetSearchQuery q => modify (setSearchQuery q)
  | SetCurrentConversation c => modify (setCurrentConversation c)
  | SendMessage content => sendMessage (currentConversation w) content
  | DeleteConversation id => deleteConversation (currentConversation w) id
  | CreateNewConversation => _ ← createNewConversation; Ret tt
  | Mount => AuthProvider_init
  | Login username password => _ ← login username password; Ret tt
  | Register email username password =>
      _ ← register email username password; Ret tt
  | Logout => logout
  end.

(** The actions that read or write the stored tokens themselves: the
    mount effect, [login] and [logout]. *)
Definition sessionAction (a : Action) : bool :=
  match a with
  | Mount | Login _ _ | Logout => true
  | _ => false
  end.

(** After the action the provider renders again, and the observer of the
    search query sees the query and the conversation of the new render. *)
Definition searchEffect : Proc unit :=
  q ← get searchQuery;
  c ← get currentConversation;
  searchObserver q c.

(** A step of a session: the action, with the renders of its updates and
    the load effect after them, and then the search query. *)
Definition step (env : Env) (a : Action) (w : World) : World :=
  snd (run env
         (try_catch (rendered (renders env) (perform a w)) (λ _, Ret tt);;
          searchEffect) w).

Fixpoint exec (history : list (Env * Action)) (w : World) : World :=
  match history with
  | [] => w
  | (env, a) :: history' => exec history' (step env a w)
  end.

(** *** Names for the parts of a suspended call *)

(** The request that leaves the client for [cfg] in the state [w]. *)
Definition outbound (w : World) (cfg : Config) : Config :=
  requestInterceptor (localStorage w) (mergeDefaults w cfg).

(** The answer of the backend to it. *)
Definition reply (env : Env) (w : World) (cfg : Config) : Result :=
  server env (trace w) (outbound w cfg).

(** The state in which the caller is resumed. *)
Definition resumed (env : Env) (w : World) (cfg : Config) : World :=
  meanwhile env (emit (Request (outbound w cfg)) w).

Definition requests (w : World) : list Event :=
  List.filter isRequest (trace w).

Definition notifications (w : World) : list Event :=
  List.filter isToast (trace w).

(** *** Names for the requests and the states of the calls *)

(** The request of [sendMessage]. *)
Definition sendConfig (cur : Conversation.t) (content : jsstring) : Config :=
  postConfig (js "/chat/") (ChatBody (trim content) (Conversation.id cur)).

(** The two messages that [sendMessage] builds when it is resumed in [w1]:
    the clock is read four times, for the two ids and the two timestamps. *)
Definition userMessage (env : Env) (w1 : World) (content : jsstring)
  : Message.t :=
  {| Message.id := toString (clock env (ticks w1));
     Message.content := trim content;
     Message.role := role_user;
     Message.timestamp := toISOString env (clock env (1 + ticks w1)) |}.

Definition assistantMessage (env : Env) (w1 : World) (r : jsstring)
  : Message.t :=
  {| Message.id := toString (clock env (2 + ticks w1) + 1);
     Message.content := r;
     Message.role := role_assistant;
     Message.timestamp := toISOString env (clock env (3 + ticks w1)) |}.

Definition deleteUrl (id : jsstring) : jsstring :=
  js "/chat/conversations/" ++ id ++ js "/".

Definition createConfig : Config :=
  postConfig (js "/chat/conversations/") (TitleBody (js "New Conversation")).

Definition tokenConfig (username password : jsstring) : Config :=
  postConfig (js "/auth/token/") (CredentialsBody username password).

Definition profileConfig : Config := getConfig (js "/api/users/me/").

Definition registerConfig (email username password : jsstring) : Config :=
  postConfig (js "/api/users/register/")
    (RegisterBody email username password password).

(** The message that the [catch] clause of [login] reports. *)
Definition loginError (error : JsError) : jsstring :=
  orElse (or_ (error_detail error) (error_message error)) loginFallback.

Definition registerError (error : JsError) : jsstring :=
  orElse (or_ (error_detail error) (error_message error)) registerFallback.

(** The state after [login] has stored the tokens of the body [d]. *)
Definition storeTokens (d : ResponseData) (w : World) : World :=
  let wa :=
    setLocalStorage
      (<[js "access_token" := String_ (data_access d)]> (localStorage w)) w in
  let wb :=
    setLocalStorage
      (<[js "refresh_token" := String_ (data_refresh d)]> (localStorage wa))
      wa in
  setDefaultAuthorization (Some (js "Bearer " ++ String_ (data_access d))) wb.

(** The state after a [catch] clause has reported [msg]. *)
Definition reported (label msg : jsstring) (w : World) : World :=
  emit (ToastError msg) (emit (ConsoleError label) w).

(** The contents of [localStorage] after both tokens are removed. *)
Definition purged (st : gmap jsstring jsstring) : gmap jsstring jsstring :=
  delete (js "refresh_token") (delete (js "access_token") st).

(** ** Invariants

    A program keeps a property of the state when each of its synchronous
    updates keeps it. *)

Inductive Keeps (P : World → Prop) {A : Type} : Proc A → Prop :=
| Keeps_Ret (a : A) : Keeps P (Ret a)
| Keeps_Throw (e : JsError) : Keeps P (Throw e)
| Keeps_Sync {B : Type} (f : World → B * World) (k : B → Proc A) :
    (∀ w, P w → P (snd (f w))) → (∀ b, Keeps P (k b)) → Keeps P (Sync f k)
| Keeps_DateNow (k : Z → Proc A) :
    (∀ t, Keeps P (k t)) → Keeps P (DateNow k)
| Keeps_NewDateISO (k : jsstring → Proc A) :
    (∀ t, Keeps P (k t)) → Keeps P (NewDateISO k)
| Keeps_JwtDecode (token : jsstring) (k : option Claims → Proc A) :
    (∀ c, Keeps P (k c)) → Keeps P (JwtDecode token k)
| Keeps_Await (cfg : Config) (k : Result → Proc A) :
    (∀ r, Keeps P (k r)) → Keeps P (Await cfg k).

(** A program none of whose updates changes [currentConversation?.id]. *)
Definition idStable {A : Type} (m : Proc A) : Prop :=
  ∀ i, Keeps (λ w, conversationId (currentConversation w) = i) m.

(** The invariant of the search query: its cache holds entries for enabled
    keys only. *)

Definition enabledKey (key : jsstring * option jsstring) : bool :=
  truthyStr (trim key.1)
  && match key.2 with Some i => truthyStr i | None => false end.

Definition cacheSound (w : World) : Prop :=
  ∀ key results, searchCache w !! key = Some results → enabledKey key = true.

(** An environment in which nothing that happens during an [await] puts a
    disabled key into the cache. *)
Definition quiet (env : Env) : Prop :=
  ∀ w, cacheSound w → cacheSound (meanwhile env w).

(** ** Sample pages and backends *)

Definition conv7 : Conversation.t :=
  {| Conversation.id := js "7";
     Conversation.title := js "New Conversation";
     Conversation.messages := [];
     Conversation.createdAt := js "2024-01-01T00:00:00.000Z";
     Conversation.updatedAt := js "2024-01-01T00:00:00.000Z";
     Conversation.summary := None |}.

(** A page with [conv7] open and nothing in [localStorage]. *)
Definition chatting : World :=
  setCurrentConversation (Some conv7) (setIsLoading false (initialWorld ∅)).

Definition unavailable : Result := Failed (ServerError 503 None).

(** A backend that answers every request with [r], a clock that advances by
    one millisecond per reading, and no other activity on the page. *)
Definition backend (r : Result) : Env :=
  {| server := λ _ _, r;
     clock := λ n, (1700000000000 + Z.of_nat n)%Z;
     toISOString := toString;
     decode := λ _, None;
     meanwhile := λ w, w;
     renders := 4 |}.

(** A backend that answers at once: the first exchange is stamped within
    one millisecond, and the second one within the next. *)
Definition hurried : Env :=
  {| server := λ _ _, Fulfilled (ChatData (JsStr (js "ok")) None);
     clock := λ n, if Nat.ltb n 4 then 1000%Z else 1001%Z;
     toISOString := toString;
     decode := λ _, None;
     meanwhile := λ w, w;
     renders := 4 |}.

Definition conv8 : Conversation.t :=
  {| Conversation.id := js "8";
     Conversation.title := js "Another conversation";
     Conversation.messages := [];
     Conversation.createdAt := js "2024-01-02T00:00:00.000Z";
     Conversation.updatedAt := js "2024-01-02T00:00:00.000Z";
     Conversation.summary := None |}.

(** A page on which the user opens [conv8] while a request is pending. *)
Definition switching (r : Result) : Env :=
  {| server := λ _ _, r;
     clock := λ n, Z.of_nat n;
     toISOString := toString;
     decode := λ _, None;
     meanwhile := setCurrentConversation (Some conv8);
     renders := 4 |}.

(** A page on which the user deletes the open conversation [conv7] while
    a request is pending: the backend confirms, and [deleteConversation]
    closes the conversation. *)
Definition deleting (r : Result) : Env :=
  {| server := λ _ _, r;
     clock := λ n, Z.of_nat n;
     toISOString := toString;
     decode := λ _, None;
     meanwhile := λ w,
       snd (run (backend (Fulfilled EmptyData))
              (deleteConversation (currentConversation w) (js "7")) w);
     renders := 4 |}.

Definition badCredentials : Result :=
  Failed (ServerError 401
    (Some {| detail := JsStr (js "No active account found");
             message := JsUndefined |})).

(** A backend that issues tokens and then fails on every other request. *)
Definition tokensOnly : Env :=
  {| server := λ _ cfg,
       match method cfg with
       | POST => Fulfilled (TokenData (JsStr (js "abc")) (JsStr (js "xyz")))
       | _ => unavailable
       end;
     clock := λ n, Z.of_nat n;
     toISOString := toString;
     decode := λ _, None;
     meanwhile := λ w, w;
     renders := 4 |}.

(** A backend that issues tokens and serves the profile of the user. *)
Definition welcoming : Env :=
  {| server := λ _ cfg,
       match method cfg with
       | POST => Fulfilled (TokenData (JsStr (js "abc")) (JsStr (js "xyz")))
       | _ => Fulfilled (UserData {| User.id := 42;
                                     User.email := js "ann@example.org";
                                     User.username := js "ann" |})
       end;
     clock := λ n, Z.of_nat n;
     toISOString := toString;
     decode := λ _, None;
     meanwhile := λ w, w;
     renders := 4 |}.

Definition annClaims : Claims :=
  {| user_id := 42;
     claim_email := js "ann@example.org";
     claim_username := js "ann" |}.

(** A platform whose decoder accepts one token. *)
Definition decoding : Env :=
  {| server := λ _ _, unavailable;
     clock := λ n, Z.of_nat n;
     toISOString := toString;
     decode := λ token,
       if decide (token = js "header.payload.signature")
       then Some annClaims else None;
     meanwhile := λ w, w;
     renders := 4 |}.

(** A backend that serves the conversation [conv7] and finds one result
    for every search. *)
Definition searching : Env :=
  {| server := λ _ cfg,
       match method cfg with
       | GET => Fulfilled (ConversationData conv7)
       | POST =>
           Fulfilled (ChatData JsUndefined (Some [JsStr (js "a cat")]))
       | DELETE => Fulfilled EmptyData
       end;
     clock := λ n, Z.of_nat n;
     toISOString := toString;
     decode := λ _, None;
     meanwhile := λ w, w;
     renders := 4 |}.

(** A backend that issues the tokens [abc] and [xyz] and serves the
    profile of the user, on a platform that decodes [abc]. *)
Definition returning : Env :=
  {| server := λ _ cfg,
       match method cfg with
       | POST => Fulfilled (TokenData (JsStr (js "abc")) (JsStr (js "xyz")))
       | _ => Fulfilled (UserData {| User.id := 42;
                                     User.email := js "ann@example.org";
                                     User.username := js "ann" |})
       end;
     clock := λ n, Z.of_nat n;
     toISOString := toString;
     decode := λ token,
       if decide (token = js "abc") then Some annClaims else None;
     meanwhile := λ w, w;
     renders := 4 |}.

(** The same, with a backend that fails on the profile request. *)
Definition flaky : Env :=
  {| server := λ _ cfg,
       match method cfg with
       | POST => Fulfilled (TokenData (JsStr (js "abc")) (JsStr (js "xyz")))
       | _ => unavailable
       end;
     clock := λ n, Z.of_nat n;
     toISOString := toString;
     decode := λ token,
       if decide (token = js "abc") then Some annClaims else None;
     meanwhile := λ w, w;
     renders := 4 |}.

(** The request of the load effect for the conversation [id]. *)
Definition loadConfig (id : jsstring) : Config :=
  getConfig (js "/conversations/" ++ id ++ js "/").

(** [conv7] as the backend has it, with one message. *)
Definition served7 : Conversation.t :=
  withMessages conv7
    [ {| Message.id := js "1"; Message.content := js "hi";
         Message.role := role_user;
         Message.timestamp := js "2024-01-01T00:00:00.000Z" |} ].

(** A page on which the user opens [conv8] while the first request is
    pending, so that the load effect has sent its request for [conv8] when
    the first answer arrives; the backend answers every request with [r]. *)
Definition interrupting (r : Result) : Env :=
  {| server := λ _ _, r;
     clock := λ n, Z.of_nat n;
     toISOString := toString;
     decode := λ _, None;
     meanwhile := λ w,
       if decide (length (requests w) = 1)
       then
         let w' := setCurrentConversation (Some conv8) w in
         emit (Request (outbound w' (loadConfig (js "8")))) w'
       else w;
     renders := 4 |}.

(** The request of the search query. *)
Definition searchConfig (q : jsstring) (cur : Conversation.t) : Config :=
  postConfig (js "/chat/") (SearchBody q (Conversation.id cur)).

(** The state in which the request of [sendMessage], if there is one, is
    answered; the state of the call when the guard returns at once. *)
Definition sendBase (env : Env) (w : World)
  (active : option Conversation.t) (content : jsstring) : World :=
  match active with
  | Some cur =>
      if negb (truthyStr (trim content))
         || negb (truthyStr (Conversation.id cur))
      then w
      else resumed env (setIsSending true w) (sendConfig cur content)
  | None => w
  end.

(** ** The callers of the store in the chat interface *)

(** [handleSubmit] of the chat input, for the text [message] of the input
    and the [isSending] of the render: the text of the input afterwards,
    and the call that is awaited.  (The resizing of the text area is left
    to the browser.) *)
Definition ChatInput_handleSubmit (onSendMessage : jsstring → Proc unit)
  (isSending : bool) (message : jsstring) : jsstring * Proc unit :=
  if negb (truthyStr (trim message)) || isSending
  then (message, Ret tt)
  else
    let msg := trim message in
    ([], onSendMessage msg).

(** [handleNewChat] of the chat interface, for the width of the window and
    the state of the sidebar: it returns the state of the sidebar
    afterwards. *)
Definition handleNewChat (innerWidth : Z) (isSidebarOpen : bool) : Proc bool :=
  try_catch
    (_ ← createNewConversation;
     modify (setSearchQuery []);;
     if (innerWidth <? 768)%Z then Ret false else Ret isSidebarOpen)
    (λ error,
      toast_error (js "Failed to create a new conversation");;
      Ret isSidebarOpen).

(** ** The routes of the application

    The router matches the location against its route table; [Location]
    names the entry that matched.  A route renders its element: the
    content of a page, or a redirect to another location. *)

Inductive Location := AtLogin | AtRegister | AtHome | Elsewhere.

Inductive Page := LoginForm | RegisterForm | MainLayout | Loader.

Inductive Element :=
| Shows (page : Page)
| Navigate (to : Location).

(** [ProtectedRoute], with its [redirectTo] and the page of its children. *)
Definition ProtectedRoute (redirectTo : Location) (children : Page)
  (w : World) : Element :=
  if isLoading w then Shows Loader
  else match user w with
       | None => Navigate redirectTo
       | Some _ => Shows children
       end.

Definition PublicRoute (children : Page) (w : World) : Element :=
  if isLoading w then Shows Loader
  else match user w with
       | Some _ => Navigate AtHome
       | None => Shows children
       end.

(** The route table of [App]; [ProtectedRoute] has its default
    [redirectTo], which is [/login].  (The index route under [/] renders
    into an outlet, and the main layout has none.) *)
Definition router (l : Location) (w : World) : Element :=
  match l with
  | AtLogin => PublicRoute LoginForm w
  | AtRegister => PublicRoute RegisterForm w
  | AtHome => ProtectedRoute AtLogin MainLayout w
  | Elsewhere => Navigate AtHome
  end.

(** Following the redirects from [l], at most [n] of them: the page that
    is shown in the end, if it got that far. *)
Fixpoint settle (n : nat) (l : Location) (w : World) : option Page :=
  match router l w with
  | Shows page => Some page
  | Navigate to =>
      match n with
      | O => None
      | S n' => settle n' to w
      end
  end.

(** ** ChatMessage: the content of a message

    [formatMessageContent] replaces every match of the regular expression
    [```(\w+)?\n([\s\S]*?)\n```] by a text built from its two groups.

    A match that starts at the head of [s] is: three backticks; the longest
    run of word characters, which is the first group (a shorter run, or
    none, cannot be followed by the newline that comes next); a newline;
    the shortest text, which is the second group, that is followed by a
    newline and three backticks. *)

(** [\w] *)
Definition isWordChar (c : char16) : bool :=
  (N.leb 48 c && N.leb c 57) || (N.leb 65 c && N.leb c 90) || N.eqb c 95
  || (N.leb 97 c && N.leb c 122).

(** The longest run of word characters at the head of [s], and what
    follows it. *)
Fixpoint takeWord (s : jsstring) : jsstring * jsstring :=
  match s with
  | c :: s' =>
      if isWordChar c
      then let '(word, rest) := takeWord s' in (c :: word, rest)
      else ([], s)
  | [] => ([], [])
  end.

(** A newline and three backticks. *)
Definition fenceClose : jsstring := 10%N :: js "```".

(** The shortest [code] such that [s] is [code], [fenceClose] and a
    rest. *)
Fixpoint findFenceClose (s : jsstring) : option (jsstring * jsstring) :=
  if startsWith s fenceClose then Some ([], drop 4 s)
  else
    match s with
    | c :: s' =>
        match findFenceClose s' with
        | Some (code, rest) => Some (c :: code, rest)
        | None => None
        end
    | [] => None
    end.

(** The match at the head of [s]: the two groups, and what follows the
    match. *)
Definition matchFence (s : jsstring)
  : option (jsstring * jsstring * jsstring) :=
  if startsWith s (js "```") then
    let '(lang, s1) := takeWord (drop 3 s) in
    match s1 with
    | 10%N :: s2 =>
        match findFenceClose s2 with
        | Some (code, rest) => Some (lang, code, rest)
        | None => None
        end
    | _ => None
    end
  else None.

(** The replacement: [```${lang || ''}\n${code}\n```], where a first
    group that did not take part reads as the empty string. *)
Definition fenceReplacement (lang code : jsstring) : jsstring :=
  js "```" ++ lang ++ 10%N :: code ++ fenceClose.

(** [s.replace(re, f)] with the global flag: the text is scanned from left
    to right; at a position where the expression matches, the replacement
    is put out and the scan goes on behind the match ([skip] counts the
    code units of the match that are still to pass); elsewhere the code
    unit is kept. *)
Fixpoint replaceFences (s : jsstring) (skip : nat) : jsstring :=
  match s with
  | [] => []
  | c :: s' =>
      match skip with
      | S k => replaceFences s' k
      | O =>
          match matchFence s with
          | Some (lang, code, rest) =>
              fenceReplacement lang code
              ++ replaceFences s' (length s' - length rest)
          | None => c :: replaceFences s' 0
          end
      end
  end.

Definition formatMessageContent (content : jsstring) : jsstring :=
  replaceFences content 0.

(** ** ChatMessage: the component and its handlers

    The props are the message and whether [onEdit] and [onDelete] are
    given; the state is that of the four [useState] hooks, and of
    [AnimatePresence], which keeps the action bar in the document while its
    exit animation runs.  What the component does to the outside are calls
    of its two callbacks and writes to the clipboard. *)

Module ChatMessage.

Record Props := {
  message : Message.t;
  onEdit : bool;
  onDelete : bool
}.

Record State := {
  isHovered : bool;
  isEditing : bool;
  editedContent : jsstring;
  showActions : bool;
  (* AnimatePresence: the action bar is on its way out *)
  barExiting : bool
}.

Definition setIsHovered (b : bool) (st : State) : State :=
  {| isHovered := b; isEditing := isEditing st;
     editedContent := editedContent st; showActions := showActions st;
     barExiting := barExiting st |}.

Definition setIsEditing (b : bool) (st : State) : State :=
  {| isHovered := isHovered st; isEditing := b;
     editedContent := editedContent st; showActions := showActions st;
     barExiting := barExiting st |}.

Definition setEditedContent (s : jsstring) (st : State) : State :=
  {| isHovered := isHovered st; isEditing := isEditing st;
     editedContent := s; showActions := showActions st;
     barExiting := barExiting st |}.

Definition setShowActions (b : bool) (st : State) : State :=
  {| isHovered := isHovered st; isEditing := isEditing st;
     editedContent := editedContent st; showActions := b;
     barExiting := barExiting st |}.

Definition setBarExiting (b : bool) (st : State) : State :=
  {| isHovered := isHovered st; isEditing := isEditing st;
     editedContent := editedContent st; showActions := showActions st;
     barExiting := b |}.

Inductive Call :=
| CallOnEdit (id newContent : jsstring)
| CallOnDelete (id : jsstring)
| ClipboardWrite (text : jsstring).

(** What the user can do to the elements of the component, and the end
    of the exit animation of the action bar. *)
Inductive UiEvent :=
| MouseEnter
| MouseLeave
| ClickActions
| BarMouseEnter
| BarMouseLeave
| ClickEdit
| ClickDelete
| ClickCopy
| ClickCodeCopy (children : jsstring)
| Change (value : jsstring)
| Save
| Cancel
| ExitComplete.

Definition initial (props : Props) : State :=
  {| isHovered := false; isEditing := false;
     editedContent := Message.content (message props);
     showActions := false; barExiting := false |}.

Definition isUser (props : Props) : bool :=
  match Message.role (message props) with role_user => true | _ => false end.

Definition isSystem (props : Props) : bool :=
  match Message.role (message props) with role_system => true | _ => false end.

(** Whether the bubble is what is rendered: neither the edit form nor the
    notice of a system message. *)
Definition bubble (props : Props) (st : State) : bool :=
  negb (isEditing st) && negb (isSystem props).

(** Whether the action bar is in the document: the bubble is rendered,
    and the bar is shown, [isHovered || showActions], or on its way out. *)
Definition barMounted (props : Props) (st : State) : bool :=
  bubble props st && (isHovered st || showActions st || barExiting st).

(** Whether the element that carries the handler of the event is in the
    document: the edit form while editing; nothing for a system message;
    else the bubble, with the action bar while that is mounted.  (The copy
    button of a code block is taken to be there whenever the bubble is.) *)
Definition offered (props : Props) (st : State) (ev : UiEvent) : bool :=
  if isEditing st then
    match ev with
    | Change _ | Save | Cancel => true
    | _ => false
    end
  else if isSystem props then false
  else
    let bar := barMounted props st in
    match ev with
    | MouseEnter | MouseLeave | ClickActions | ClickCodeCopy _ => true
    | BarMouseEnter | BarMouseLeave | ClickCopy => bar
    | ClickEdit => bar && isUser props && onEdit props
    | ClickDelete => bar && isUser props && onEdit props && onDelete props
    | ExitComplete => barExiting st
    | Change _ | Save | Cancel => false
    end.

(** [String(children).replace(/\n$/, '')]: without one final newline. *)
Definition stripFinalNewline (s : jsstring) : jsstring :=
  match rev s with
  | 10%N :: r => rev r
  | _ => s
  end.

(** The handlers. *)
Definition handle (props : Props) (st : State) (ev : UiEvent)
  : State * list Call :=
  let id := Message.id (message props) in
  let content := Message.content (message props) in
  match ev with
  | MouseEnter | BarMouseEnter => (setIsHovered true st, [])
  | MouseLeave => (setIsHovered false st, [])
  | ClickActions => (setShowActions (negb (showActions st)) st, [])
  | BarMouseLeave => (setShowActions false st, [])
  | ClickEdit =>
      (setShowActions false (setIsEditing true (setEditedContent content st)),
       [])
  | ClickDelete =>
      (setShowActions false st,
       if onDelete props then [CallOnDelete id] else [])
  | ClickCopy => (setShowActions false st, [ClipboardWrite content])
  | ClickCodeCopy children =>
      (st, [ClipboardWrite (stripFinalNewline children)])
  | Change value => (setEditedContent value st, [])
  | Save =>
      (setIsEditing false st,
       if onEdit props then [CallOnEdit id (editedContent st)] else [])
  | Cancel => (setIsEditing false (setEditedContent content st), [])
  | ExitComplete => (setBarExiting false st, [])
  end.

(** The render after the handlers.  A bar that was in the document and is
    not shown any more stays for its exit animation, as long as the bubble
    around it stays: the edit form and the bubble replace each other as a
    whole.  The end of the animation takes the bar out. *)
Definition rerender (props : Props) (before : State) (ev : UiEvent)
  (after : State) : State :=
  match ev with
  | ExitComplete => after
  | _ =>
      setBarExiting
        (bubble props after
         && negb (isHovered after || showActions after)
         && barMounted props before)
        after
  end.

(** An event acts only on an element that is there. *)
Definition react (props : Props) (st : State) (ev : UiEvent)
  : State * list Call :=
  if offered props st ev
  then let r := handle props st ev in (rerender props st ev r.1, r.2)
  else (st, []).

(** A series of events on the component, from the state [st]: the state
    in the end and all the calls made, in order. *)
Fixpoint session (props : Props) (st : State) (evs : list UiEvent)
  : State * list Call :=
  match evs with
  | [] => (st, [])
  | ev :: evs' =>
      let '(st1, calls1) := react props st ev in
      let '(st2, calls2) := session props st1 evs' in
      (st2, calls1 ++ calls2)
  end.

End ChatMessage.

(** ** Invariants of [localStorage] *)

(** The entries of [localStorage] under other keys than those of the two
    tokens are the ones of [st]. *)
Definition otherKeysKept (st : gmap jsstring jsstring) (w : World) : Prop :=
  ∀ k, k ≠ js "access_token" → k ≠ js "refresh_token" →
       localStorage w !! k = st !! k.

(** The two tokens are stored together or not at all. *)
Definition tokensPaired (w : World) : Prop :=
  is_Some (localStorage w !! js "access_token")
  ↔ is_Some (localStorage w !! js "refresh_token").

(** A page with a theme that another script of the site has stored. *)
Definition themed : gmap jsstring jsstring := {[ js "theme" := js "dark" ]}.

(** * Properties *)

(** ** Strings *)

Lemma js_inj (s t : string) : js s = js t → s = t.
Proof.
  unfold js. intros H.
  rewrite <- (string_of_list_ascii_of_string s).
  rewrite <- (string_of_list_ascii_of_string t).
  f_equal.
  remember (list_ascii_of_string s) as a eqn:Ea.
  remember (list_ascii_of_string t) as b eqn:Eb.
  clear Ea Eb s t. revert b H.
  induction a as [|x a IH]; intros [|y b] H; simpl in H; try discriminate.
  - reflexivity.
  - injection H as Hxy Hab.
    f_equal; [|now apply IH].
    rewrite <- (ascii_N_embedding x), <- (ascii_N_embedding y).
    now rewrite Hxy.
Qed.

Lemma toString_inj (a b : Z) : toString a = toString b → a = b.
Proof.
  unfold toString. intros H. apply js_inj in H.
  assert (Hi : Some (Z.to_int a) = Some (Z.to_int b)).
  { rewrite <- (NilEmpty.isi (Z.to_int a)), <- (NilEmpty.isi (Z.to_int b)).
    now rewrite H. }
  injection Hi as Hi.
  rewrite <- (DecimalZ.of_to a), <- (DecimalZ.of_to b).
  now rewrite Hi.
Qed.

Lemma trimStart_nil_iff (s : jsstring) :
  trimStart s = [] ↔ ∀ c, c ∈ s → isWhiteSpace c = true.
Proof.
  induction s as [|c s IH]; simpl.
  - split; [intros _ c Hc; inversion Hc | reflexivity].
  - destruct (isWhiteSpace c) eqn:Hc.
    + rewrite IH. split.
      * intros H x Hx. apply elem_of_cons in Hx as [-> | Hx]; auto.
      * intros H x Hx. apply H. now apply elem_of_cons; right.
    + split; [discriminate|].
      intros H. specialize (H c (list_elem_of_here c s)). congruence.
Qed.

Lemma trimStart_head (s : jsstring) :
  trimStart s = [] ∨ ∃ c r, trimStart s = c :: r ∧ isWhiteSpace c = false.
Proof.
  induction s as [|c s IH]; simpl; [now left|].
  destruct (isWhiteSpace c) eqn:Hc; [exact IH|].
  right. now exists c, s.
Qed.

(** A string trims to the empty string exactly when it is made of white
    space only (the empty string included). *)
Lemma trim_nil_iff (s : jsstring) :
  trim s = [] ↔ ∀ c, c ∈ s → isWhiteSpace c = true.
Proof.
  unfold trim, trimEnd. split.
  - intros H. apply trimStart_nil_iff.
    assert (H' : trimStart (rev (trimStart s)) = []).
    { rewrite <- (rev_involutive (trimStart _)), H. reflexivity. }
    destruct (trimStart_head s) as [E | (c & r & E & Hc)]; [exact E|].
    exfalso.
    rewrite trimStart_nil_iff in H'.
    specialize (H' c). rewrite E in H'.
    rewrite H' in Hc; [discriminate|].
    apply list_elem_of_In, in_rev. rewrite rev_involutive. now left.
  - intros H. apply trimStart_nil_iff in H. now rewrite H.
Qed.

Lemma truthyStr_true (s : jsstring) : truthyStr s = true ↔ s ≠ [].
Proof. destruct s; simpl; split; congruence. Qed.

Lemma startsWith_spec (s search : jsstring) :
  startsWith s search = true ↔ ∃ post, s = search ++ post.
Proof.
  revert s. induction search as [|a search IH]; intros s; simpl.
  - split; [intros _; now exists s | intros _; now destruct s].
  - destruct s as [|b s].
    + split; [discriminate | intros [post H]; discriminate].
    + simpl. rewrite andb_true_iff, N.eqb_eq, IH. split.
      * intros [-> [post ->]]. now exists post.
      * intros [post H]. injection H as -> ->. split; [reflexivity|].
        now exists post.
Qed.

(** [includes] finds exactly the substrings. *)
Lemma includes_spec (s search : jsstring) :
  includes s search = true ↔ ∃ pre post, s = pre ++ search ++ post.
Proof.
  induction s as [|c s IH]; cbn [includes].
  - rewrite orb_false_r, startsWith_spec. split.
    + intros [post H]. now exists [], post.
    + intros (pre & post & H).
      destruct pre; [now exists post|discriminate].
  - rewrite orb_true_iff, startsWith_spec, IH. split.
    + intros [[post H] | (pre & post & H)].
      * now exists [], post.
      * exists (c :: pre), post. simpl. now f_equal.
    + intros (pre & post & H). destruct pre as [|x pre].
      * left. now exists post.
      * right. injection H as -> H. now exists pre, post.
Qed.

(** ** How [run] goes through the control structures *)

Lemma run_bind {A B : Type} (env : Env) (m : Proc A) (f : A → Proc B)
  (w : World) :
  run env (m ≫= f) w =
  match run env m w with
  | (Resolved a, w') => run env (f a) w'
  | (Rejected e, w') => (Rejected e, w')
  end.
Proof.
  unfold mbind, Proc_bind. revert w.
  induction m as [a|e|X g k IH|k IH|k IH|token k IH|cfg k IH];
    intros w; cbn [bind run]; auto.
  destruct (g w) as [b w']. apply IH.
Qed.

Lemma run_try_catch {A : Type} (env : Env) (m : Proc A)
  (h : JsError → Proc A) (w : World) :
  run env (try_catch m h) w =
  match run env m w with
  | (Resolved a, w') => (Resolved a, w')
  | (Rejected e, w') => run env (h e) w'
  end.
Proof.
  revert w.
  induction m as [a|e|X g k IH|k IH|k IH|token k IH|cfg k IH];
    intros w; cbn [try_catch run]; auto.
  destruct (g w) as [b w']. apply IH.
Qed.

Lemma run_try_finally {A : Type} (env : Env) (m : Proc A) (fin : Proc unit)
  (w : World) :
  run env (try_finally m fin) w =
  match run env m w with
  | (Resolved a, w') =>
      match run env fin w' with
      | (Resolved _, w'') => (Resolved a, w'')
      | (Rejected e, w'') => (Rejected e, w'')
      end
  | (Rejected e, w') =>
      match run env fin w' with
      | (Resolved _, w'') => (Rejected e, w'')
      | (Rejected e', w'') => (Rejected e', w'')
      end
  end.
Proof.
  revert w.
  induction m as [a|e|X g k IH|k IH|k IH|token k IH|cfg k IH];
    intros w; cbn [try_finally run]; auto.
  - rewrite (run_bind env fin (λ _, Ret a)).
    destruct (run env fin w) as [[[]|e] w']; reflexivity.
  - rewrite (run_bind (B:=A) env fin (λ _, Throw e)).
    destruct (run env fin w) as [[[]|e'] w']; reflexivity.
  - destruct (g w) as [b w']. apply IH.
Qed.

(** An [await] sends the request through the interceptor, and resumes in
    the state that the page is in when the answer arrives. *)
Lemma run_await (env : Env) (cfg : Config) (w : World) :
  run env (await cfg) w =
  (match reply env w cfg with
   | Fulfilled d => Resolved d
   | Failed e => Rejected (AxiosError e)
   end, resumed env w cfg).
Proof.
  unfold await, reply, resumed, outbound. cbn [run].
  destruct (server env _ _); reflexivity.
Qed.

Lemma run_modify (env : Env) (f : World → World) (w : World) :
  run env (modify f) w = (Resolved tt, f w).
Proof. reflexivity. Qed.

Lemma run_get {B : Type} (env : Env) (f : World → B) (w : World) :
  run env (get f) w = (Resolved (f w), w).
Proof. reflexivity. Qed.

Ltac run_simpl :=
  repeat first
    [ rewrite run_bind | rewrite run_try_catch | rewrite run_try_finally
    | rewrite run_await | rewrite run_modify | rewrite run_get
    | progress cbn [run] ].

(** ** The conversation store: sending *)

(** C7. [sendMessage] does nothing on degenerate input: for the empty
    string, for a string of white space only, and for any content when no
    conversation is active, the call resolves and the whole state of the
    page is what it was: no request was issued (the trace is unchanged), and
    the messages and [isSending] are unchanged. *)
Theorem sendMessage_degenerate_noop (env : Env) (w : World)
  (active : option Conversation.t) (content : jsstring) :
  content = [] ∨ (∀ c, c ∈ content → isWhiteSpace c = true) ∨ active = None →
  run env (sendMessage active content) w = (Resolved tt, w).
Proof.
  intros H. unfold sendMessage.
  destruct active as [cur|]; [|reflexivity].
  assert (Ht : trim content = []).
  { destruct H as [-> | [H | H]]; [reflexivity | | discriminate].
    now apply trim_nil_iff. }
  rewrite Ht. reflexivity.
Qed.

Lemma sendMessage_degenerate_noop_witness :
  run (backend unavailable) (sendMessage (Some conv7) (js "   ")) chatting
  = (Resolved tt, chatting)
  ∧ run (backend unavailable) (sendMessage None (js "x"))
      (initialWorld ∅)
    = (Resolved tt, initialWorld ∅).
Proof.
  split.
  - apply sendMessage_degenerate_noop. right; left.
    intros c Hc. apply list_elem_of_In in Hc. simpl in Hc.
    destruct Hc as [<- | [<- | [<- | []]]]; reflexivity.
  - apply sendMessage_degenerate_noop. right; right. reflexivity.
Defined.

(** C10. When the request of [sendMessage] completes successfully and the
    [response] field of the body is absent, [null] or the empty string,
    the call resolves in the state in which it was resumed, with one cache
    invalidation of the conversation collection added to the trace and
    [isSending] cleared: no message is appended and no notification is
    raised. *)
Theorem sendMessage_reply_without_text (env : Env) (w : World)
  (cur : Conversation.t) (content : jsstring) (d : ResponseData) :
  truthyStr (trim content) = true →
  truthyStr (Conversation.id cur) = true →
  reply env (setIsSending true w) (sendConfig cur content) = Fulfilled d →
  data_response d = JsUndefined ∨ data_response d = JsNull
    ∨ data_response d = JsStr [] →
  run env (sendMessage (Some cur) content) w =
  (Resolved tt,
   setIsSending false
     (emit (InvalidateQueries (js "conversations"))
        (resumed env (setIsSending true w) (sendConfig cur content)))).
Proof.
  intros Hc Hi Hr Hd.
  unfold sendMessage. rewrite Hc, Hi. cbn [negb orb].
  unfold api_post, invalidateQueries. run_simpl.
  fold (sendConfig cur content). rewrite Hr.
  assert (Ht : truthy (data_response d) = false).
  { destruct Hd as [-> | [-> | ->]]; reflexivity. }
  rewrite Ht. run_simpl. reflexivity.
Qed.

Lemma sendMessage_reply_without_text_witness :
  let env := backend (Fulfilled (ChatData JsNull None)) in
  let w' := snd (run env (sendMessage (Some conv7) (js "hello")) chatting) in
  messages w' = [] ∧ notifications w' = [] ∧ isSending w' = false
  ∧ List.filter isInvalidate (trace w')
    = [InvalidateQueries (js "conversations")].
Proof.
  intros env w'. subst w'.
  rewrite (sendMessage_reply_without_text env chatting conv7 (js "hello")
             (ChatData JsNull None));
    [ | reflexivity | reflexivity | reflexivity | right; left; reflexivity ].
  vm_compute. repeat split; reflexivity.
Defined.

(** With content and an active conversation, [sendMessage] sends, and
    however the request ends the call resolves with [isSending] false. *)
Lemma sendMessage_settled (env : Env) (w : World) (cur : Conversation.t)
  (content : jsstring) :
  truthyStr (trim content) = true →
  truthyStr (Conversation.id cur) = true →
  let out := run env (sendMessage (Some cur) content) w in
  fst out = Resolved tt ∧ isSending (snd out) = false.
Proof.
  intros Hc Hi out. subst out.
  unfold sendMessage. rewrite Hc, Hi. cbn [negb orb].
  unfold api_post, invalidateQueries, console_error, toast_error.
  run_simpl.
  destruct (reply env _ _) as [d|e]; run_simpl; [|now split].
  destruct (truthy (data_response d)); run_simpl; [|now split].
  unfold appendExchange. run_simpl.
  destruct (currentConversation _); run_simpl; now split.
Qed.

(** C1, as the code has it.  A call of [sendMessage] with content that is
    not white space only, made by a render with an active conversation,
    always resolves with [isSending] false.  When the request succeeds with
    a non-empty reply text [r], the two messages go to the conversation
    that is active when the answer arrives, which need not be the one that
    the message was sent for.  If a conversation [prev] is active then,
    exactly two messages are appended to the messages of [prev]: a user
    message with the trimmed content, then an assistant message with
    content [r]; their timestamps are formatted clock readings and their
    ids are the decimal digits of a clock reading and of a later clock
    reading plus one.  The two ids differ whenever the clock did not go
    backwards, and they differ from the id of every older message that is
    the decimal of a number below the first reading.  If no conversation is
    active then, nothing is appended.  When the request fails no message is
    appended. *)
Theorem sendMessage_exchange (env : Env) (w : World) (cur : Conversation.t)
  (content : jsstring) :
  truthyStr (trim content) = true →
  truthyStr (Conversation.id cur) = true →
  let w0 := setIsSending true w in
  let w1 := resumed env w0 (sendConfig cur content) in
  let out := run env (sendMessage (Some cur) content) w in
  (fst out = Resolved tt ∧ isSending (snd out) = false)
  ∧ (∀ d r prev,
     reply env w0 (sendConfig cur content) = Fulfilled d →
     data_response d = JsStr r → r ≠ [] →
     currentConversation w1 = Some prev →
     let u := userMessage env w1 content in
     let a := assistantMessage env w1 r in
     fst out = Resolved tt
     ∧ currentConversation (snd out)
       = Some (withMessages prev (Conversation.messages prev ++ [u; a]))
     ∧ messages (snd out) = messages w1 ++ [u; a]
     ∧ isSending (snd out) = false
     ∧ ((clock env (ticks w1) <= clock env (2 + ticks w1))%Z →
        Message.id u ≠ Message.id a
        ∧ ∀ m n, m ∈ Conversation.messages prev →
            Message.id m = toString n → (n < clock env (ticks w1))%Z →
            Message.id m ≠ Message.id u ∧ Message.id m ≠ Message.id a))
  ∧ (∀ d r,
       reply env w0 (sendConfig cur content) = Fulfilled d →
       data_response d = JsStr r → r ≠ [] →
       currentConversation w1 = None →
       fst out = Resolved tt
       ∧ currentConversation (snd out) = None
       ∧ messages (snd out) = []
       ∧ isSending (snd out) = false)
  ∧ (∀ e,
       reply env w0 (sendConfig cur content) = Failed e →
       fst out = Resolved tt
       ∧ currentConversation (snd out) = currentConversation w1
       ∧ messages (snd out) = messages w1
       ∧ isSending (snd out) = false).
Proof.
  intros Hc Hi w0 w1 out.
  split; [exact (sendMessage_settled env w cur content Hc Hi)|].
  subst out.
  unfold sendMessage. rewrite Hc, Hi. cbn [negb orb].
  unfold api_post, invalidateQueries, console_error, toast_error.
  run_simpl. fold (sendConfig cur content). fold w0. fold w1.
  split; [|split].
  - intros d r prev Hr Hd Hne Hprev. rewrite Hr, Hd.
    assert (Ht : truthy (JsStr r) = true) by (now destruct r).
    rewrite Ht. unfold appendExchange. run_simpl. rewrite Hprev.
    run_simpl. cbn [fst snd String_].
    unfold messages. cbn [currentConversation setIsSending emit
      setCurrentConversation tick isSending ticks]. rewrite Hprev.
    split; [reflexivity|]. split; [reflexivity|]. split; [reflexivity|].
    split; [reflexivity|]. intros Hle. split.
    + intros Hid. apply toString_inj in Hid. lia.
    + intros m n _ Hm Hn. rewrite Hm.
      split; intros Hid; apply toString_inj in Hid; lia.
  - intros d r Hr Hd Hne Hprev. rewrite Hr, Hd.
    assert (Ht : truthy (JsStr r) = true) by (now destruct r).
    rewrite Ht. unfold appendExchange. run_simpl. rewrite Hprev.
    run_simpl. cbn [fst snd]. repeat split.
  - intros e Hr. rewrite Hr. run_simpl. cbn [fst snd].
    repeat split.
Qed.

Lemma sendMessage_exchange_witness :
  (let env := backend (Fulfilled (ChatData (JsStr (js "world")) None)) in
   let out := run env (sendMessage (Some conv7) (js "hello")) chatting in
   messages (snd out)
   = [ {| Message.id := js "1700000000000";
          Message.content := js "hello";
          Message.role := role_user;
          Message.timestamp := js "1700000000001" |};
       {| Message.id := js "1700000000003";
          Message.content := js "world";
          Message.role := role_assistant;
          Message.timestamp := js "1700000000003" |} ]
   ∧ isSending (snd out) = false)
  ∧ (let env := backend unavailable in
     let out := run env (sendMessage (Some conv7) (js "hello")) chatting in
     messages (snd out) = [] ∧ isSending (snd out) = false).
Proof.
  split.
  - intros env out.
    destruct (sendMessage_exchange env chatting conv7 (js "hello")
                eq_refl eq_refl) as (_ & Hok & _).
    destruct (Hok (ChatData (JsStr (js "world")) None) (js "world") conv7
                eq_refl eq_refl ltac:(discriminate) eq_refl)
      as (_ & _ & Hm & Hs & _).
    split; [exact Hm | exact Hs].
  - intros env out.
    destruct (sendMessage_exchange env chatting conv7 (js "hello")
                eq_refl eq_refl) as (_ & _ & _ & Hfail).
    destruct (Hfail (ServerError 503 None) eq_refl) as (_ & _ & Hm & Hs).
    split; [exact Hm | exact Hs].
Defined.

(** C1 fails as stated on four inputs.  For a successful request whose
    reply text is the empty string, the messages of the conversation are
    not extended by two messages: they are what they were.  The ids need
    not be unique: after two exchanges that the clock stamps one
    millisecond apart, the assistant message of the first and the user
    message of the second have the same id.  When the user opens another
    conversation while the request is pending, the two messages are
    appended to that conversation and not to the one that the message was
    sent for.  And when the user deletes the conversation while the request
    is pending, a successful request with the reply text [world] appends
    nothing at all. *)
Lemma sendMessage_counterexample :
  (let env := backend (Fulfilled (ChatData (JsStr []) None)) in
   let out := run env (sendMessage (Some conv7) (js "hello")) chatting in
   currentConversation chatting = Some conv7
   ∧ reply env (setIsSending true chatting) (sendConfig conv7 (js "hello"))
     = Fulfilled (ChatData (JsStr []) None)
   ∧ fst out = Resolved tt
   ∧ messages (snd out) = messages chatting
   ∧ ¬ ∃ u a, messages (snd out) = messages chatting ++ [u; a])
  ∧ (let w1 := snd (run hurried (sendMessage (Some conv7) (js "a")) chatting) in
     let w2 :=
       snd (run hurried (sendMessage (currentConversation w1) (js "b")) w1) in
     Message.id <$> messages w2
     = [js "1000"; js "1001"; js "1001"; js "1002"]
     ∧ ¬ NoDup (Message.id <$> messages w2))
  ∧ (let env := switching (Fulfilled (ChatData (JsStr (js "world")) None)) in
     let out := run env (sendMessage (Some conv7) (js "hello")) chatting in
     currentConversation chatting = Some conv7
     ∧ reply env (setIsSending true chatting) (sendConfig conv7 (js "hello"))
       = Fulfilled (ChatData (JsStr (js "world")) None)
     ∧ fst out = Resolved tt
     ∧ Conversation.id <$> currentConversation (snd out) = Some (js "8")
     ∧ Message.content <$> messages (snd out) = [js "hello"; js "world"])
  ∧ (let env := deleting (Fulfilled (ChatData (JsStr (js "world")) None)) in
     let out := run env (sendMessage (Some conv7) (js "hello")) chatting in
     currentConversation chatting = Some conv7
     ∧ reply env (setIsSending true chatting) (sendConfig conv7 (js "hello"))
       = Fulfilled (ChatData (JsStr (js "world")) None)
     ∧ fst out = Resolved tt
     ∧ currentConversation (snd out) = None
     ∧ messages (snd out) = []
     ∧ ¬ ∃ u a, messages (snd out) = messages chatting ++ [u; a]).
Proof.
  split; [|split; [|split]].
  - vm_compute. repeat split. intros (u & a & H). discriminate.
  - assert (E : Message.id <$>
        messages (snd (run hurried
          (sendMessage
             (currentConversation
                (snd (run hurried (sendMessage (Some conv7) (js "a"))
                        chatting))) (js "b"))
          (snd (run hurried (sendMessage (Some conv7) (js "a")) chatting))))
      = [js "1000"; js "1001"; js "1001"; js "1002"]) by (vm_compute; reflexivity).
    cbv zeta. rewrite E. split; [reflexivity|].
    intros H. apply NoDup_cons in H as [_ H].
    apply NoDup_cons in H as [H _]. apply H. left.
  - vm_compute. repeat split.
  - vm_compute. repeat split. intros (u & a & H). discriminate.
Qed.

(** ** The conversation store: deleting and creating *)

Lemma run_deleteConversation (env : Env) (w : World)
  (active : option Conversation.t) (id : jsstring) :
  run env (deleteConversation active id) w =
  let w1 := resumed env w (deleteConfig (deleteUrl id)) in
  match reply env w (deleteConfig (deleteUrl id)) with
  | Fulfilled _ =>
      (Resolved tt,
       emit (InvalidateQueries (js "conversations"))
         (if decide (conversationId active = Some id)
          then setCurrentConversation None w1 else w1))
  | Failed e => (Rejected (AxiosError e), w1)
  end.
Proof.
  unfold deleteConversation, api_delete, invalidateQueries. run_simpl.
  fold (deleteUrl id).
  destruct (reply env w _); [|reflexivity].
  destruct (decide _); run_simpl; reflexivity.
Qed.

Lemma run_createNewConversation (env : Env) (w : World) :
  run env createNewConversation w =
  match reply env w createConfig with
  | Fulfilled d =>
      (Resolved d,
       emit (InvalidateQueries (js "conversations"))
         (resumed env w createConfig))
  | Failed e => (Rejected (AxiosError e), resumed env w createConfig)
  end.
Proof.
  unfold createNewConversation, api_post, invalidateQueries. run_simpl.
  fold createConfig.
  destruct (reply env w _); run_simpl; reflexivity.
Qed.

(** C4, as the code has it.  [deleteConversation(id)] awaits the answer to
    the delete request first.  When the request succeeds, the conversation
    collection is invalidated, and if [id] is the id of the conversation
    that the callback holds as active, the active conversation is [null]
    afterwards, whatever happened to the page while the request was
    pending.  When the request fails the call rejects in the state in which
    it was resumed: the active conversation is not cleared and nothing is
    invalidated. *)
Theorem deleteConversation_active (env : Env) (w : World)
  (active : option Conversation.t) (id : jsstring) :
  let cfg := deleteConfig (deleteUrl id) in
  let w1 := resumed env w cfg in
  let out := run env (deleteConversation active id) w in
  (∀ d, reply env w cfg = Fulfilled d →
     fst out = Resolved tt
     ∧ trace (snd out) = trace w1 ++ [InvalidateQueries (js "conversations")]
     ∧ (conversationId active = Some id →
        currentConversation (snd out) = None)
     ∧ (conversationId active ≠ Some id →
        currentConversation (snd out) = currentConversation w1))
  ∧ (∀ e, reply env w cfg = Failed e →
       out = (Rejected (AxiosError e), w1)).
Proof.
  intros cfg w1 out. subst out. rewrite run_deleteConversation.
  fold cfg. cbv zeta. fold w1. split.
  - intros d ->. cbn [fst snd].
    destruct (decide (conversationId active = Some id)) as [E|E];
      repeat split; intros; try reflexivity; contradiction.
  - intros e ->. reflexivity.
Qed.

Lemma deleteConversation_active_witness :
  (let env := backend (Fulfilled EmptyData) in
   let out := run env (deleteConversation (Some conv7) (js "7")) chatting in
   fst out = Resolved tt
   ∧ currentConversation (snd out) = None
   ∧ List.filter isInvalidate (trace (snd out))
     = [InvalidateQueries (js "conversations")])
  ∧ (let env := switching (Fulfilled EmptyData) in
     let out := run env (deleteConversation (Some conv7) (js "7")) chatting in
     currentConversation
       (resumed env chatting (deleteConfig (deleteUrl (js "7"))))
     = Some conv8
     ∧ currentConversation (snd out) = None).
Proof.
  split.
  - intros env out.
    destruct (deleteConversation_active env chatting (Some conv7) (js "7"))
      as [Hok _].
    destruct (Hok EmptyData eq_refl) as (Ho & Ht & Hc & _).
    split; [exact Ho|]. split; [exact (Hc eq_refl)|].
    subst out. rewrite Ht. reflexivity.
  - intros env out.
    destruct (deleteConversation_active env chatting (Some conv7) (js "7"))
      as [Hok _].
    destruct (Hok EmptyData eq_refl) as (_ & _ & Hc & _).
    split; [reflexivity | exact (Hc eq_refl)].
Defined.

(** C4 fails as stated when the delete request fails: the conversation
    [conv7] is active and is the one to delete, the backend answers 503,
    and afterwards [conv7] is still the active conversation and the
    conversation collection was not invalidated. *)
Lemma deleteConversation_failure_counterexample :
  let env := backend unavailable in
  let out := run env (deleteConversation (Some conv7) (js "7")) chatting in
  conversationId (currentConversation chatting) = Some (js "7")
  ∧ currentConversation (snd out) = Some conv7
  ∧ currentConversation (snd out) ≠ None
  ∧ List.filter isInvalidate (trace (snd out)) = [].
Proof. vm_compute. repeat split. discriminate. Qed.

(** ** The session provider: login and register *)

Lemma run_login (env : Env) (w : World) (username password : jsstring) :
  run env (login username password) w =
  let w1 := resumed env w (tokenConfig username password) in
  match reply env w (tokenConfig username password) with
  | Failed e =>
      (Resolved false,
       reported (js "Login error:") (loginError (AxiosError e)) w1)
  | Fulfilled d =>
      let w2 := storeTokens d w1 in
      let w3 := resumed env w2 profileConfig in
      match reply env w2 profileConfig with
      | Failed e =>
          (Resolved false,
           reported (js "Login error:") (loginError (AxiosError e)) w3)
      | Fulfilled d' =>
          (Resolved true,
           emit (ToastSuccess (js "Logged in successfully!"))
             (setUser (data_user d') w3))
      end
  end.
Proof.
  unfold login, api_post, api_get, localStorage_setItem, toast_success,
    toast_error, console_error.
  run_simpl. fold (tokenConfig username password).
  destruct (reply env w _) as [d|e]; run_simpl; [|reflexivity].
  fold profileConfig. fold (storeTokens d (resumed env w
    (tokenConfig username password))).
  destruct (reply env _ profileConfig) as [d'|e]; run_simpl; reflexivity.
Qed.

Lemma run_register (env : Env) (w : World) (email username password : jsstring) :
  run env (register email username password) w =
  let w1 := resumed env w (registerConfig email username password) in
  match reply env w (registerConfig email username password) with
  | Failed e =>
      (Resolved false,
       reported (js "Registration error:") (registerError (AxiosError e)) w1)
  | Fulfilled _ =>
      (Resolved true,
       emit (ToastSuccess (js "Registration successful! Please log in.")) w1)
  end.
Proof.
  unfold register, api_post, toast_success, toast_error, console_error.
  run_simpl. fold (registerConfig email username password).
  destruct (reply env w _) as [d|e]; run_simpl; reflexivity.
Qed.

Lemma run_appendExchange (env : Env) (w : World) (content : jsstring)
  (response : JsValue) :
  fst (run env (appendExchange content response) w) = Resolved tt.
Proof.
  unfold appendExchange. run_simpl.
  destruct (currentConversation w); run_simpl; reflexivity.
Qed.

(** [sendMessage] never rejects. *)
Lemma sendMessage_resolves (env : Env) (w : World)
  (active : option Conversation.t) (content : jsstring) :
  fst (run env (sendMessage active content) w) = Resolved tt.
Proof.
  unfold sendMessage. destruct active as [cur|]; [|reflexivity].
  destruct (negb _ || negb _); [reflexivity|].
  unfold api_post, invalidateQueries, console_error, toast_error.
  run_simpl.
  destruct (reply env _ _) as [d|e]; run_simpl; [|reflexivity].
  destruct (truthy (data_response d)); run_simpl; [|reflexivity].
  pose proof (run_appendExchange env
    (resumed env (setIsSending true w)
       (postConfig (js "/chat/")
          (ChatBody (trim content) (Conversation.id cur))))
    content (data_response d)) as H.
  destruct (run env (appendExchange _ _) _) as [[[]|e] w'];
    cbn [fst] in H; [reflexivity | discriminate].
Qed.

Lemma sendMessage_failed (env : Env) (w : World) (cur : Conversation.t)
  (content : jsstring) (e : ApiError) :
  truthyStr (trim content) = true →
  truthyStr (Conversation.id cur) = true →
  reply env (setIsSending true w) (sendConfig cur content) = Failed e →
  run env (sendMessage (Some cur) content) w =
  (Resolved tt,
   setIsSending false
     (reported (js "Error sending message:") (js "Failed to send message")
        (resumed env (setIsSending true w) (sendConfig cur content)))).
Proof.
  intros Hc Hi Hr. unfold sendMessage. rewrite Hc, Hi. cbn [negb orb].
  unfold api_post, invalidateQueries, console_error, toast_error.
  run_simpl. fold (sendConfig cur content). rewrite Hr. run_simpl.
  reflexivity.
Qed.

Lemma trace_reported (label msg : jsstring) (w : World) :
  trace (reported label msg w) = trace w ++ [ConsoleError label; ToastError msg].
Proof. unfold reported. cbn [trace emit]. now rewrite <- app_assoc. Qed.

(** C3, as the code has it.  A [login] that fails resolves to [false] and
    leaves the user as it is.  When it is the token request that fails,
    nothing is written: [localStorage] and the default [Authorization]
    header are what they were when the call was resumed.  The message of
    the error notification is the [detail] of the error body when that is
    a non-empty string, else the [message] of the error body when that is a
    non-empty string, else the generic text. *)
Theorem login_failure (env : Env) (w : World) (username password : jsstring) :
  let cfg := tokenConfig username password in
  let w1 := resumed env w cfg in
  let out := run env (login username password) w in
  (∀ e, reply env w cfg = Failed e →
     fst out = Resolved false
     ∧ user (snd out) = user w1
     ∧ localStorage (snd out) = localStorage w1
     ∧ defaultAuthorization (snd out) = defaultAuthorization w1
     ∧ trace (snd out)
       = trace w1 ++ [ConsoleError (js "Login error:");
                      ToastError (loginError (AxiosError e))])
  ∧ (∀ d e, reply env w cfg = Fulfilled d →
       reply env (storeTokens d w1) profileConfig = Failed e →
       let w3 := resumed env (storeTokens d w1) profileConfig in
       fst out = Resolved false
       ∧ user (snd out) = user w3
       ∧ trace (snd out)
         = trace w3 ++ [ConsoleError (js "Login error:");
                        ToastError (loginError (AxiosError e))])
  ∧ (∀ error,
       loginError error =
       if truthy (error_detail error) then String_ (error_detail error)
       else if truthy (error_message error)
            then String_ (error_message error)
            else loginFallback).
Proof.
  intros cfg w1 out. subst out. rewrite run_login. fold cfg. cbv zeta.
  fold w1. repeat apply conj.
  - intros e ->. cbn [fst snd]. rewrite trace_reported. repeat split.
  - intros d e -> ->. cbn [fst snd]. rewrite trace_reported. repeat split.
  - intros error. unfold loginError, orElse, or_.
    destruct (truthy (error_detail error)) eqn:Hd; [now rewrite Hd|].
    reflexivity.
Qed.

Lemma login_failure_witness :
  let env := backend badCredentials in
  let out := run env (login (js "ann") (js "pw")) (initialWorld ∅) in
  fst out = Resolved false
  ∧ user (snd out) = None
  ∧ localStorage (snd out) = ∅
  ∧ defaultAuthorization (snd out) = None
  ∧ List.filter isToast (trace (snd out))
    = [ToastError (js "No active account found")].
Proof.
  intros env out.
  destruct (login_failure env (initialWorld ∅) (js "ann") (js "pw"))
    as (H & _ & _).
  destruct (H _ eq_refl) as (Ho & Hu & Hs & Hh & Ht).
  split; [exact Ho|]. split; [exact Hu|]. split; [exact Hs|].
  split; [exact Hh|]. subst out. rewrite Ht. reflexivity.
Defined.

(** C3 fails as stated on two inputs.  When the token request is rejected
    with a body that has a [message] and no [detail], the notification
    carries that [message], which is neither a [detail] nor the generic
    text.  When the token request succeeds and the profile request fails,
    [login] reports a failure and the user stays [null], but both tokens
    have been written to [localStorage], which was empty before. *)
Lemma login_failure_counterexample :
  (let locked := ServerError 423
     (Some {| detail := JsUndefined; message := JsStr (js "Account locked") |}) in
   let env := backend (Failed locked) in
   let out := run env (login (js "ann") (js "pw")) (initialWorld ∅) in
   fst out = Resolved false
   ∧ error_detail (AxiosError locked) = JsUndefined
   ∧ List.filter isToast (trace (snd out))
     = [ToastError (js "Account locked")]
   ∧ js "Account locked" ≠ loginFallback)
  ∧ (let out := run tokensOnly (login (js "ann") (js "pw"))
                  (initialWorld ∅) in
     fst out = Resolved false
     ∧ user (snd out) = None
     ∧ localStorage (initialWorld ∅) !! js "access_token" = None
     ∧ localStorage (snd out) !! js "access_token" = Some (js "abc")
     ∧ localStorage (snd out) !! js "refresh_token" = Some (js "xyz")).
Proof.
  split.
  - vm_compute. repeat split. discriminate.
  - vm_compute. repeat split.
Qed.

(** ** Failures at the boundary of the operations *)

(** C2, as the code has it.  [login], [register] and [sendMessage] catch
    every failure of their requests: they never reject; a failed request
    makes [login] and [register] resolve to [false], and each of the three
    reports it with an error notification.  A failed [sendMessage] leaves
    the state in which it was resumed, up to the two reports and
    [isSending] being false.  [createNewConversation] and [deleteConversation] do not catch:
    when their request fails the call rejects with that failure to its
    caller, in the state in which it was resumed: nothing was notified,
    invalidated or changed. *)
Theorem failures_at_operation_boundary (env : Env) (w : World) :
  (∀ username password,
     let cfg := tokenConfig username password in
     let out := run env (login username password) w in
     (∃ b, fst out = Resolved b)
     ∧ (∀ e, reply env w cfg = Failed e →
          out = (Resolved false,
                 reported (js "Login error:") (loginError (AxiosError e))
                   (resumed env w cfg)))
     ∧ (∀ d e, reply env w cfg = Fulfilled d →
          let w2 := storeTokens d (resumed env w cfg) in
          reply env w2 profileConfig = Failed e →
          fst out = Resolved false
          ∧ trace (snd out)
            = trace (resumed env w2 profileConfig)
              ++ [ConsoleError (js "Login error:");
                  ToastError (loginError (AxiosError e))]))
  ∧ (∀ email username password,
       let cfg := registerConfig email username password in
       let out := run env (register email username password) w in
       (∃ b, fst out = Resolved b)
       ∧ (∀ e, reply env w cfg = Failed e →
            out = (Resolved false,
                   reported (js "Registration error:")
                     (registerError (AxiosError e)) (resumed env w cfg))))
  ∧ (∀ active content,
       fst (run env (sendMessage active content) w) = Resolved tt)
  ∧ (∀ cur content e,
       truthyStr (trim content) = true →
       truthyStr (Conversation.id cur) = true →
       reply env (setIsSending true w) (sendConfig cur content) = Failed e →
       run env (sendMessage (Some cur) content) w =
       (Resolved tt,
        setIsSending false
          (reported (js "Error sending message:")
             (js "Failed to send message")
             (resumed env (setIsSending true w) (sendConfig cur content)))))
  ∧ (∀ e, reply env w createConfig = Failed e →
       run env createNewConversation w =
       (Rejected (AxiosError e), resumed env w createConfig))
  ∧ (∀ active id e,
       reply env w (deleteConfig (deleteUrl id)) = Failed e →
       run env (deleteConversation active id) w =
       (Rejected (AxiosError e), resumed env w (deleteConfig (deleteUrl id)))).
Proof.
  repeat apply conj.
  - intros username password cfg out. subst out cfg. rewrite run_login.
    cbv zeta. repeat apply conj.
    + destruct (reply env w _) as [d|e]; [|now eexists].
      destruct (reply env _ profileConfig); now eexists.
    + intros e ->. reflexivity.
    + intros d e -> ->. cbn [fst snd]. now rewrite trace_reported.
  - intros email username password cfg out. subst out cfg.
    rewrite run_register. cbv zeta. split.
    + destruct (reply env w _); now eexists.
    + intros e ->. reflexivity.
  - intros active content. apply sendMessage_resolves.
  - intros cur content e. apply sendMessage_failed.
  - intros e H. rewrite run_createNewConversation, H. reflexivity.
  - intros active id e H. rewrite run_deleteConversation, H. reflexivity.
Qed.

Lemma failures_at_operation_boundary_witness :
  let env := backend unavailable in
  fst (run env (login (js "ann") (js "pw")) chatting) = Resolved false
  ∧ fst (run env (register (js "a@b.c") (js "ann") (js "pw")) chatting)
    = Resolved false
  ∧ run env (sendMessage (Some conv7) (js "hello")) chatting
    = (Resolved tt,
       setIsSending false
         (reported (js "Error sending message:") (js "Failed to send message")
            (resumed env (setIsSending true chatting)
               (sendConfig conv7 (js "hello")))))
  ∧ fst (run env createNewConversation chatting)
    = Rejected (AxiosError (ServerError 503 None))
  ∧ fst (run env (deleteConversation (Some conv7) (js "7")) chatting)
    = Rejected (AxiosError (ServerError 503 None)).
Proof.
  intros env.
  destruct (failures_at_operation_boundary env chatting)
    as (Hlogin & Hregister & _ & Hsend & Hcreate & Hdelete).
  split.
  { destruct (Hlogin (js "ann") (js "pw")) as (_ & H & _).
    now rewrite (H _ eq_refl). }
  split.
  { destruct (Hregister (js "a@b.c") (js "ann") (js "pw")) as [_ H].
    now rewrite (H _ eq_refl). }
  split.
  { exact (Hsend conv7 (js "hello") _ eq_refl eq_refl eq_refl). }
  split.
  { now rewrite (Hcreate _ eq_refl). }
  now rewrite (Hdelete (Some conv7) (js "7") _ eq_refl).
Defined.

(** C2 fails as stated for [createNewConversation] and for
    [deleteConversation]: when the backend answers 503, each of the two
    calls rejects with that failure, which the caller receives, and no
    notification is raised. *)
Lemma uncaught_failure_counterexample :
  let env := backend unavailable in
  let created := run env createNewConversation chatting in
  let deleted := run env (deleteConversation (Some conv7) (js "7")) chatting in
  fst created = Rejected (AxiosError (ServerError 503 None))
  ∧ notifications (snd created) = []
  ∧ fst deleted = Rejected (AxiosError (ServerError 503 None))
  ∧ notifications (snd deleted) = [].
Proof. vm_compute. repeat split. Qed.

(** ** The session provider: logout and initialization *)

Lemma access_refresh_distinct : js "access_token" ≠ js "refresh_token".
Proof. discriminate. Qed.

Lemma purged_access (st : gmap jsstring jsstring) :
  purged st !! js "access_token" = None.
Proof.
  unfold purged.
  rewrite lookup_delete_ne by (symmetry; exact access_refresh_distinct).
  apply lookup_delete_eq.
Qed.

Lemma purged_refresh (st : gmap jsstring jsstring) :
  purged st !! js "refresh_token" = None.
Proof. apply lookup_delete_eq. Qed.

Lemma purged_id (st : gmap jsstring jsstring) :
  st !! js "access_token" = None → st !! js "refresh_token" = None →
  purged st = st.
Proof.
  intros Ha Hr. unfold purged. rewrite (delete_id st _ Ha).
  now apply delete_id.
Qed.

Lemma run_logout (env : Env) (w : World) :
  run env logout w =
  (Resolved tt,
   emit (ToastSuccess (js "Logged out successfully"))
     (setUser None (setLocalStorage (purged (localStorage w)) w))).
Proof. reflexivity. Qed.

(** C9. In every state [logout] removes both stored tokens and sets the
    user to [null] without any request: the only addition to the trace is
    the notification.  It is idempotent: a second [logout] leaves the user
    and the stored data as the first left them.  In a state that is
    already anonymous, with no user and neither token stored, the state
    after [logout] is the state before it with the notification added: the
    session state and the stored data are unchanged. *)
Theorem logout_local_idempotent (env : Env) (w : World) :
  let out := run env logout w in
  let again := run env logout (snd out) in
  fst out = Resolved tt
  ∧ localStorage (snd out) !! js "access_token" = None
  ∧ localStorage (snd out) !! js "refresh_token" = None
  ∧ user (snd out) = None
  ∧ trace (snd out) = trace w ++ [ToastSuccess (js "Logged out successfully")]
  ∧ requests (snd out) = requests w
  ∧ (user (snd again) = user (snd out)
     ∧ localStorage (snd again) = localStorage (snd out))
  ∧ (user w = None →
     localStorage w !! js "access_token" = None →
     localStorage w !! js "refresh_token" = None →
     snd out = emit (ToastSuccess (js "Logged out successfully")) w).
Proof.
  intros out again. subst again out. rewrite !run_logout.
  cbn [fst snd localStorage user trace emit setUser setLocalStorage].
  split; [reflexivity|].
  split; [apply purged_access|].
  split; [apply purged_refresh|].
  split; [reflexivity|].
  split; [reflexivity|].
  split.
  { unfold requests. cbn [trace emit setUser setLocalStorage].
    rewrite List.filter_app. cbn. now rewrite app_nil_r. }
  split.
  { split; [reflexivity|].
    apply purged_id; [apply purged_access | apply purged_refresh]. }
  intros Hu Ha Hr. rewrite (purged_id _ Ha Hr).
  destruct w; cbn in *. now subst.
Qed.

Lemma logout_local_idempotent_witness :
  snd (run (backend unavailable) logout (initialWorld ∅))
  = emit (ToastSuccess (js "Logged out successfully")) (initialWorld ∅).
Proof.
  destruct (logout_local_idempotent (backend unavailable) (initialWorld ∅))
    as (_ & _ & _ & _ & _ & _ & _ & H).
  apply H; reflexivity.
Defined.

Lemma run_init_decoded (env : Env) (w : World) (token : jsstring)
  (decoded : Claims) :
  localStorage w !! js "access_token" = Some token →
  truthyStr token = true →
  decode env token = Some decoded →
  run env AuthProvider_init w =
  (Resolved tt, setIsLoading false (setUser (Some (claimsUser decoded)) w)).
Proof.
  intros Hs Ht Hd. unfold AuthProvider_init, localStorage_getItem.
  run_simpl. rewrite Hs, Ht. unfold jwtDecode. cbn [bind].
  run_simpl. rewrite Hd. run_simpl. reflexivity.
Qed.

Lemma run_init_undecodable (env : Env) (w : World) (token : jsstring) :
  localStorage w !! js "access_token" = Some token →
  truthyStr token = true →
  decode env token = None →
  run env AuthProvider_init w =
  (Resolved tt,
   setIsLoading false
     (setLocalStorage (purged (localStorage w))
        (emit (ConsoleError (js "Failed to decode token:")) w))).
Proof.
  intros Hs Ht Hd.
  unfold AuthProvider_init, localStorage_getItem, localStorage_removeItem,
    console_error.
  run_simpl. rewrite Hs, Ht. unfold jwtDecode. cbn [bind].
  run_simpl. rewrite Hd. run_simpl. reflexivity.
Qed.

Lemma run_init_no_token (env : Env) (w : World) :
  localStorage w !! js "access_token" = None
  ∨ localStorage w !! js "access_token" = Some [] →
  run env AuthProvider_init w = (Resolved tt, setIsLoading false w).
Proof.
  intros H. unfold AuthProvider_init, localStorage_getItem. run_simpl.
  destruct H as [-> | ->]; run_simpl; reflexivity.
Qed.

(** C5, as the code has it.  When the page is mounted with a non-empty
    access token in [localStorage]: if the token decodes to claims, the
    user is set with the id, email and username of the claims and the page
    is authenticated, with [localStorage] untouched; if the token does not
    decode, the user stays [null] and both tokens are removed from
    [localStorage].  With no access token stored, or with the empty string
    stored as access token, nothing is decoded and nothing is removed.  In
    each case the effect completes and clears [isLoading]. *)
Theorem init_token_roundtrip (env : Env) (st : gmap jsstring jsstring) :
  let out := run env AuthProvider_init (initialWorld st) in
  (∀ token c,
     st !! js "access_token" = Some token → token ≠ [] →
     decode env token = Some c →
     fst out = Resolved tt
     ∧ user (snd out)
       = Some {| User.id := user_id c; User.email := claim_email c;
                 User.username := claim_username c |}
     ∧ isAuthenticated (snd out) = true
     ∧ isLoading (snd out) = false
     ∧ localStorage (snd out) = st)
  ∧ (∀ token,
       st !! js "access_token" = Some token → token ≠ [] →
       decode env token = None →
       fst out = Resolved tt
       ∧ user (snd out) = None
       ∧ isAuthenticated (snd out) = false
       ∧ isLoading (snd out) = false
       ∧ localStorage (snd out) !! js "access_token" = None
       ∧ localStorage (snd out) !! js "refresh_token" = None
       ∧ localStorage (snd out) = purged st)
  ∧ (st !! js "access_token" = None ∨ st !! js "access_token" = Some [] →
     out = (Resolved tt, setIsLoading false (initialWorld st))).
Proof.
  intros out. subst out. repeat apply conj.
  - intros token c Hs Hne Hd. apply truthyStr_true in Hne.
    rewrite (run_init_decoded env (initialWorld st) token c Hs Hne Hd).
    repeat split.
  - intros token Hs Hne Hd. apply truthyStr_true in Hne.
    rewrite (run_init_undecodable env (initialWorld st) token Hs Hne Hd).
    cbn [fst snd user isLoading localStorage setIsLoading setLocalStorage
         emit initialWorld isAuthenticated].
    repeat split; [apply purged_access | apply purged_refresh].
  - intros H. now apply run_init_no_token.
Qed.

Lemma init_token_roundtrip_witness :
  (let st : gmap jsstring jsstring :=
     {[ js "access_token" := js "header.payload.signature" ]} in
   user (snd (run decoding AuthProvider_init (initialWorld st)))
   = Some {| User.id := 42; User.email := js "ann@example.org";
             User.username := js "ann" |})
  ∧ (let st : gmap jsstring jsstring :=
       <[ js "refresh_token" := js "xyz" ]>
         {[ js "access_token" := js "garbage" ]} in
     let out := run decoding AuthProvider_init (initialWorld st) in
     user (snd out) = None
     ∧ localStorage (snd out) !! js "access_token" = None
     ∧ localStorage (snd out) !! js "refresh_token" = None).
Proof.
  split.
  - intros st.
    destruct (init_token_roundtrip decoding st) as (H & _ & _).
    destruct (H (js "header.payload.signature") annClaims)
      as (_ & Hu & _); [reflexivity | discriminate | reflexivity |].
    exact Hu.
  - intros st out.
    destruct (init_token_roundtrip decoding st) as (_ & H & _).
    destruct (H (js "garbage")) as (_ & Hu & _ & _ & Ha & Hr & _);
      [reflexivity | discriminate | reflexivity |].
    split; [exact Hu|]. split; [exact Ha | exact Hr].
Defined.

(** C5 fails as stated when the stored access token is the empty string,
    which does not decode: the page is anonymous after initialization, but
    the stored tokens are not removed. *)
Lemma init_empty_token_counterexample :
  let st : gmap jsstring jsstring :=
    <[ js "refresh_token" := js "xyz" ]> {[ js "access_token" := [] ]} in
  let out := run decoding AuthProvider_init (initialWorld st) in
  st !! js "access_token" = Some []
  ∧ decode decoding [] = None
  ∧ user (snd out) = None
  ∧ localStorage (snd out) !! js "access_token" = Some []
  ∧ localStorage (snd out) !! js "refresh_token" = Some (js "xyz").
Proof. vm_compute. repeat split. Qed.

(** ** The request interceptor *)

Lemma requestInterceptor_bearer_aux (storage : gmap jsstring jsstring)
  (config : Config) (token : jsstring) :
  (urlIncludes config (js "token") = false →
   urlIncludes config (js "login") = false →
   storage !! js "access_token" = Some token → token ≠ [] →
   Authorization (requestInterceptor storage config)
   = Some (js "Bearer " ++ token))
  ∧ (urlIncludes config (js "token") = true
     ∨ urlIncludes config (js "login") = true →
     requestInterceptor storage config = config).
Proof.
  unfold requestInterceptor. split.
  - intros Ht Hl Hs Hne. rewrite Ht, Hl, Hs. cbn [negb andb].
    apply truthyStr_true in Hne. now rewrite Hne.
  - intros [-> | ->]; [reflexivity|]. now rewrite andb_false_r.
Qed.

(** C6, as the code has it.  The interceptor changes nothing of a request
    but its [Authorization] header.  For a request whose url contains
    neither [token] nor [login] (a request without url among them), when
    [localStorage] holds a non-empty access token, the header becomes
    [Bearer] followed by that token.  A request whose url contains [token]
    or [login] passes unchanged, and so does every request when no access
    token, or the empty string, is stored.  The configuration is the one
    that reaches the interceptor, with the default headers of the client
    already merged in. *)
Theorem requestInterceptor_bearer (storage : gmap jsstring jsstring)
  (config : Config) :
  let sent := requestInterceptor storage config in
  (url sent = url config ∧ method sent = method config
   ∧ data sent = data config)
  ∧ (∀ token,
       urlIncludes config (js "token") = false →
       urlIncludes config (js "login") = false →
       storage !! js "access_token" = Some token → token ≠ [] →
       Authorization sent = Some (js "Bearer " ++ token))
  ∧ (urlIncludes config (js "token") = true
     ∨ urlIncludes config (js "login") = true →
     sent = config)
  ∧ (storage !! js "access_token" = None
     ∨ storage !! js "access_token" = Some [] →
     sent = config).
Proof.
  intros sent. subst sent. unfold requestInterceptor. repeat apply conj.
  - destruct (negb _ && negb _); [|reflexivity].
    destruct (storage !! _) as [token|]; [|reflexivity].
    destruct (truthyStr token); reflexivity.
  - destruct (negb _ && negb _); [|reflexivity].
    destruct (storage !! _) as [token|]; [|reflexivity].
    destruct (truthyStr token); reflexivity.
  - destruct (negb _ && negb _); [|reflexivity].
    destruct (storage !! _) as [token|]; [|reflexivity].
    destruct (truthyStr token); reflexivity.
  - intros token Ht Hl Hs Hne. rewrite Ht, Hl, Hs. cbn [negb andb].
    apply truthyStr_true in Hne. now rewrite Hne.
  - intros [-> | ->]; [reflexivity|]. now rewrite andb_false_r.
  - intros [-> | ->]; now destruct (negb _ && negb _).
Qed.

Lemma requestInterceptor_bearer_witness :
  let storage : gmap jsstring jsstring := {[ js "access_token" := js "abc" ]} in
  Authorization
    (requestInterceptor storage (getConfig (js "/chat/conversations/")))
  = Some (js "Bearer abc")
  ∧ requestInterceptor storage (tokenConfig (js "ann") (js "pw"))
    = tokenConfig (js "ann") (js "pw").
Proof.
  intros storage. split.
  - destruct (requestInterceptor_bearer storage
                (getConfig (js "/chat/conversations/"))) as (_ & H & _ & _).
    apply (H (js "abc")); [reflexivity | reflexivity | reflexivity |].
    discriminate.
  - destruct (requestInterceptor_bearer storage
                (tokenConfig (js "ann") (js "pw"))) as (_ & _ & H & _).
    apply H. left. reflexivity.
Defined.

(** The request that [run] sends for a call is the output of the
    interceptor on the configuration of the call with the defaults of the
    client merged in; merging the defaults does not change the url. *)
Lemma outbound_bearer (w : World) (cfg : Config) (token : jsstring) :
  urlIncludes cfg (js "token") = false →
  urlIncludes cfg (js "login") = false →
  localStorage w !! js "access_token" = Some token → token ≠ [] →
  Authorization (outbound w cfg) = Some (js "Bearer " ++ token).
Proof.
  intros Ht Hl Hs Hne. unfold outbound.
  destruct (requestInterceptor_bearer_aux (localStorage w)
              (mergeDefaults w cfg) token) as [H _].
  apply H; try assumption;
    unfold mergeDefaults, urlIncludes in *;
    destruct (Authorization cfg); assumption.
Qed.

(** C6 fails as stated on two inputs.  When the stored access token is the
    empty string, a request whose url contains neither [token] nor [login]
    leaves without an [Authorization] header although [localStorage] has an
    entry for the access token.  And after a successful [login], which
    installs the token as default header of the client, the next request to
    the token endpoint leaves with the stored token as bearer credential:
    the interceptor adds nothing to it, and removes nothing. *)
Lemma requestInterceptor_counterexample :
  (let storage : gmap jsstring jsstring := {[ js "access_token" := [] ]} in
   let config := getConfig (js "/chat/conversations/") in
   urlIncludes config (js "token") = false
   ∧ urlIncludes config (js "login") = false
   ∧ storage !! js "access_token" = Some []
   ∧ Authorization (requestInterceptor storage config) = None)
  ∧ (let w := snd (run welcoming (login (js "ann") (js "pw"))
                     (initialWorld ∅)) in
     let config := tokenConfig (js "ann") (js "pw") in
     urlIncludes config (js "token") = true
     ∧ localStorage w !! js "access_token" = Some (js "abc")
     ∧ Authorization (outbound w config) = Some (js "Bearer abc")).
Proof. split; vm_compute; repeat split. Qed.

(** ** Invariants of the page state

    Running a program that keeps a property of the state keeps the
    property, given that reading the clock, recording an event, and
    whatever happens during an [await] keep it too. *)

Section Invariant.
Variable P : World → Prop.

Lemma Keeps_bind {A B : Type} (m : Proc A) (f : A → Proc B) :
  Keeps P m → (∀ a, Keeps P (f a)) → Keeps P (m ≫= f).
Proof.
  unfold mbind, Proc_bind. intros Hm Hf.
  induction Hm; cbn [bind]; auto using @Keeps.
Qed.

Lemma Keeps_try_catch {A : Type} (m : Proc A) (h : JsError → Proc A) :
  Keeps P m → (∀ e, Keeps P (h e)) → Keeps P (try_catch m h).
Proof.
  intros Hm Hh. induction Hm; cbn [try_catch]; auto using @Keeps.
Qed.

Lemma Keeps_try_finally {A : Type} (m : Proc A) (fin : Proc unit) :
  Keeps P m → Keeps P fin → Keeps P (try_finally m fin).
Proof.
  intros Hm Hfin. induction Hm; cbn [try_finally]; auto using @Keeps.
  - apply (Keeps_bind fin (λ _, Ret a)); auto using @Keeps.
  - apply (Keeps_bind (B:=A) fin (λ _, Throw e)); auto using @Keeps.
Qed.

Lemma Keeps_modify (f : World → World) :
  (∀ w, P w → P (f w)) → Keeps P (modify f).
Proof. intros H. apply Keeps_Sync; [exact H | apply Keeps_Ret]. Qed.

Lemma Keeps_get {B : Type} (f : World → B) : Keeps P (get f).
Proof. apply Keeps_Sync; [auto | apply Keeps_Ret]. Qed.

Lemma Keeps_await (cfg : Config) : Keeps P (await cfg).
Proof. apply Keeps_Await. intros []; constructor. Qed.

Variable env : Env.
Hypothesis P_tick : ∀ w, P w → P (tick w).
Hypothesis P_emit : ∀ e w, P w → P (emit e w).
Hypothesis P_meanwhile : ∀ w, P w → P (meanwhile env w).

Lemma run_keeps {A : Type} (m : Proc A) (w : World) :
  Keeps P m → P w → P (snd (run env m w)).
Proof.
  intros Hm. revert w.
  induction Hm as [a|e|B f k Hf _ IH|k _ IH|k _ IH|token k _ IH|cfg k _ IH];
    intros w Hw; cbn [run]; auto.
  specialize (Hf w Hw). destruct (f w) as [b w']. now apply IH.
Qed.
End Invariant.

(** *** Invariants and the render cycle

    The load effect updates [currentConversation] and reports errors: a
    property that those steps keep is kept through the renders too. *)

Lemma Keeps_inv (P : World → Prop) {A : Type} (m : Proc A) :
  Keeps P m →
  match m with
  | Sync f k => (∀ w, P w → P (f w).2) ∧ ∀ b, Keeps P (k b)
  | DateNow k => ∀ t, Keeps P (k t)
  | NewDateISO k => ∀ t, Keeps P (k t)
  | JwtDecode _ k => ∀ c, Keeps P (k c)
  | Await _ k => ∀ r, Keeps P (k r)
  | _ => True
  end.
Proof. destruct 1; auto. Qed.

Lemma Keeps_observed (P : World → Prop) {A : Type}
  (effect : option Conversation.t → Proc unit) (m : Proc A) :
  (∀ c, Keeps P (effect c)) → Keeps P m → Keeps P (observed effect m).
Proof.
  intros He Hm.
  induction Hm as [a|e|B f k Hf _ IH|k _ IH|k _ IH|token k _ IH|cfg k _ IH];
    cbn [observed]; try (constructor; assumption).
  apply Keeps_Sync.
  - intros w Hw. specialize (Hf w Hw). now destruct (f w) as [b w'].
  - intros [b [c|]]; cbn [fst snd]; [|apply IH].
    apply Keeps_bind; [|intros _; apply IH].
    apply Keeps_try_catch; [apply He | intros _; apply Keeps_Ret].
Qed.

Lemma Keeps_loadEffect (P : World → Prop) (c : option Conversation.t) :
  (∀ c w, P w → P (setCurrentConversation c w)) →
  (∀ e w, P w → P (emit e w)) →
  Keeps P (loadEffect c).
Proof.
  intros Hset Hemit. unfold loadEffect.
  destruct c as [cur|]; [|apply Keeps_Ret].
  destruct (truthyStr (Conversation.id cur)); [|apply Keeps_Ret].
  unfold loadConversation, api_get, console_error, toast_error.
  apply Keeps_try_catch.
  - apply Keeps_bind; [apply Keeps_await|].
    intros d. apply Keeps_modify. apply Hset.
  - intros e. apply Keeps_bind; [|intros _]; apply Keeps_modify; apply Hemit.
Qed.

Lemma Keeps_rendered (P : World → Prop) (n : nat) {A : Type} (m : Proc A) :
  (∀ c w, P w → P (setCurrentConversation c w)) →
  (∀ e w, P w → P (emit e w)) →
  Keeps P m → Keeps P (rendered n m).
Proof.
  intros Hset Hemit. revert A m.
  induction n as [|n IH]; intros A m Hm; cbn [rendered];
    apply Keeps_observed; try exact Hm; intros c.
  - now apply Keeps_loadEffect.
  - apply IH. now apply Keeps_loadEffect.
Qed.

(** A program that leaves [currentConversation?.id] alone runs as it does
    without the renders. *)
Lemma run_observed_stable {A : Type} (env : Env)
  (effect : option Conversation.t → Proc unit) (m : Proc A) (w : World) :
  idStable m → run env (observed effect m) w = run env m w.
Proof.
  revert w.
  induction m as [a|e|X g k IH|k IH|k IH|token k IH|cfg k IH];
    intros w Hs; cbn [observed run]; try reflexivity.
  - pose proof (proj1 (Keeps_inv _ _ (Hs (conversationId (currentConversation w))))
                  w eq_refl) as Hid.
    destruct (g w) as [b w']. cbn [snd] in Hid.
    unfold idChanged. rewrite decide_True by exact Hid. cbn [fst snd].
    apply IH. intros i. apply (Keeps_inv _ _ (Hs i)).
  - apply IH. intros i. apply (Keeps_inv _ _ (Hs i)).
  - apply IH. intros i. apply (Keeps_inv _ _ (Hs i)).
  - apply IH. intros i. apply (Keeps_inv _ _ (Hs i)).
  - apply IH. intros i. apply (Keeps_inv _ _ (Hs i)).
Qed.

Lemma rendered_unfold (n : nat) {A : Type} (m : Proc A) :
  rendered n m =
  observed (λ c, match n with
                 | 0 => loadEffect c
                 | S n' => rendered n' (loadEffect c)
                 end) m.
Proof. destruct n; reflexivity. Qed.

Lemma run_rendered_stable {A : Type} (env : Env) (n : nat) (m : Proc A)
  (w : World) :
  idStable m → run env (rendered n m) w = run env m w.
Proof. destruct n; cbn [rendered]; apply run_observed_stable. Qed.

(** *** The cache of the search query holds enabled keys only *)

Lemma searchEnabled_enabledKey (q : jsstring) (c : option Conversation.t) :
  searchEnabled q c = enabledKey (q, conversationId c).
Proof. reflexivity. Qed.

Lemma cacheSound_initial (st : gmap jsstring jsstring) :
  cacheSound (initialWorld st).
Proof. intros key results H. cbn in H. now rewrite lookup_empty in H. Qed.

Lemma cacheSound_results (w : World) :
  cacheSound w →
  searchEnabled (searchQuery w) (currentConversation w) = false →
  searchResults w = [].
Proof.
  intros Hw Hd. unfold searchResults, searchKey.
  destruct (searchCache w !! _) as [results|] eqn:E; [|reflexivity].
  apply Hw in E. rewrite <- searchEnabled_enabledKey in E. congruence.
Qed.

Ltac keeps_step :=
  match goal with
  | |- Keeps _ (_ ≫= _) => apply Keeps_bind; [|intros ?]
  | |- Keeps _ (try_catch _ _) => apply Keeps_try_catch; [|intros ?]
  | |- Keeps _ (try_finally _ _) => apply Keeps_try_finally
  | |- Keeps _ (modify _) => apply Keeps_modify; intros ? ?
  | |- Keeps _ (get _) => apply Keeps_get
  | |- Keeps _ (await _) => apply Keeps_await
  | |- Keeps _ (if ?b then _ else _) => destruct b
  | |- Keeps _ (match ?x with _ => _ end) => destruct x
  | |- Keeps _ _ => constructor; intros
  | H : cacheSound ?w |- cacheSound _ => exact H
  end.

Lemma Keeps_searchObserver (q : jsstring) (c : option Conversation.t) :
  Keeps cacheSound (searchObserver q c).
Proof.
  unfold searchObserver.
  destruct (searchEnabled q c) eqn:He; [|constructor].
  apply Keeps_try_catch; [|constructor].
  apply Keeps_bind.
  - unfold searchQueryFn, api_post. repeat keeps_step.
  - intros results. apply Keeps_modify. intros w Hw key res.
    cbn [searchCache setSearchCache]. intros H.
    apply lookup_insert_Some in H as [[<- _] | [_ H]].
    + now rewrite <- searchEnabled_enabledKey.
    + now apply Hw in H.
Qed.

Lemma Keeps_searchEffect : Keeps cacheSound searchEffect.
Proof.
  unfold searchEffect.
  apply Keeps_bind; [apply Keeps_get | intros q].
  apply Keeps_bind; [apply Keeps_get | intros c].
  apply Keeps_searchObserver.
Qed.

Lemma Keeps_perform (a : Action) (w : World) :
  Keeps cacheSound (perform a w).
Proof.
  destruct a; cbn [perform];
    unfold sendMessage, deleteConversation, createNewConversation,
      AuthProvider_init, login, register, logout, loadEffect,
      loadConversation, appendExchange, jwtDecode,
      api_get, api_post, api_delete, localStorage_getItem,
      localStorage_setItem, localStorage_removeItem, invalidateQueries,
      toast_success, toast_error, console_error;
    repeat keeps_step.
Qed.

Lemma cacheSound_step (env : Env) (a : Action) (w : World) :
  quiet env → cacheSound w → cacheSound (step env a w).
Proof.
  intros Hq Hw. unfold step.
  apply run_keeps; auto.
  apply Keeps_bind; [|intros _; apply Keeps_searchEffect].
  apply Keeps_try_catch; [|constructor].
  apply Keeps_rendered; [auto | auto | apply Keeps_perform].
Qed.

Lemma cacheSound_exec (history : list (Env * Action)) (w : World) :
  Forall (λ ea, quiet ea.1) history → cacheSound w →
  cacheSound (exec history w).
Proof.
  intros H. revert w.
  induction H as [|[env a] history Hq _ IH]; intros w Hw; cbn [exec].
  - exact Hw.
  - apply IH. now apply cacheSound_step.
Qed.

(** Sessions of the page are themselves quiet: an environment in which the
    activity during an [await] is such a session is quiet. *)
Lemma quiet_exec (env : Env) (history : list (Env * Action)) :
  Forall (λ ea, quiet ea.1) history →
  meanwhile env = exec history →
  quiet env.
Proof.
  intros H E w Hw. rewrite E. now apply cacheSound_exec.
Qed.


(** ** The search query *)

Lemma searchEnabled_gated (q : jsstring) (c : option Conversation.t) :
  c = None ∨ (∀ x, x ∈ q → isWhiteSpace x = true) →
  searchEnabled q c = false.
Proof.
  unfold searchEnabled. intros [-> | H].
  - apply andb_false_r.
  - apply trim_nil_iff in H. now rewrite H.
Qed.

Lemma run_searchEffect_disabled (env : Env) (w : World) :
  searchEnabled (searchQuery w) (currentConversation w) = false →
  run env searchEffect w = (Resolved tt, w).
Proof.
  intros H. unfold searchEffect, searchObserver. run_simpl.
  now rewrite H.
Qed.

Lemma step_setSearchQuery_disabled (env : Env) (w : World) (q : jsstring) :
  searchEnabled q (currentConversation w) = false →
  step env (SetSearchQuery q) w = setSearchQuery q w.
Proof.
  intros H. unfold step. cbn [perform].
  rewrite run_bind, run_try_catch, run_rendered_stable.
  - rewrite run_modify. now rewrite run_searchEffect_disabled.
  - intros i. apply Keeps_modify. now intros w' Hw'.
Qed.

(** C8.  In every state [w] that a session of the page reaches from its
    initial state: if no conversation is active, or the search query is
    empty or white space only, the search results are empty and the
    observer of the search query issues no request; setting the query to
    [q] while no conversation is active, or to a [q] that is empty or white
    space only, only stores the query: no request is issued and the search
    results are empty afterwards; in particular, clearing the query gives
    empty search results, whatever the results were before. *)
Theorem search_gating (st : gmap jsstring jsstring)
  (history : list (Env * Action)) :
  Forall (λ ea, quiet ea.1) history →
  let w := exec history (initialWorld st) in
  (currentConversation w = None
   ∨ (∀ x, x ∈ searchQuery w → isWhiteSpace x = true) →
   searchResults w = []
   ∧ ∀ env, run env searchEffect w = (Resolved tt, w))
  ∧ (∀ env q,
       currentConversation w = None ∨ (∀ x, x ∈ q → isWhiteSpace x = true) →
       let w' := step env (SetSearchQuery q) w in
       w' = setSearchQuery q w
       ∧ requests w' = requests w
       ∧ searchResults w' = [])
  ∧ (∀ env, searchResults (step env (SetSearchQuery []) w) = []).
Proof.
  intros Hq w.
  assert (Hw : cacheSound w).
  { apply cacheSound_exec; [exact Hq | apply cacheSound_initial]. }
  assert (Hset : ∀ env q,
    currentConversation w = None ∨ (∀ x, x ∈ q → isWhiteSpace x = true) →
    step env (SetSearchQuery q) w = setSearchQuery q w
    ∧ searchResults (step env (SetSearchQuery q) w) = []).
  { intros env q Hg. apply searchEnabled_gated in Hg.
    rewrite (step_setSearchQuery_disabled env w q Hg).
    split; [reflexivity|].
    apply cacheSound_results; [exact Hw | exact Hg]. }
  repeat apply conj.
  - intros Hg. apply searchEnabled_gated in Hg.
    split; [now apply cacheSound_results|].
    intros env. now apply run_searchEffect_disabled.
  - intros env q Hg w'. subst w'.
    destruct (Hset env q Hg) as [E Hr].
    split; [exact E|]. split; [now rewrite E | exact Hr].
  - intros env. apply (Hset env []). right. intros x Hx. inversion Hx.
Qed.

Lemma quiet_searching : quiet searching.
Proof. intros w Hw. exact Hw. Qed.

Lemma search_gating_witness :
  let populated :=
    exec [(searching, SetCurrentConversation (Some conv7));
          (searching, SetSearchQuery (js "cat"))] (initialWorld ∅) in
  let blank :=
    exec [(searching, SetSearchQuery (js "cat"))] (initialWorld ∅) in
  searchResults populated = [JsStr (js "a cat")]
  ∧ searchResults (step searching (SetSearchQuery []) populated) = []
  ∧ (currentConversation blank = None
     ∧ searchQuery blank = js "cat"
     ∧ searchResults blank = []
     ∧ run searching searchEffect blank = (Resolved tt, blank)).
Proof.
  intros populated blank.
  split; [reflexivity|]. split.
  - destruct (search_gating ∅
      [(searching, SetCurrentConversation (Some conv7));
       (searching, SetSearchQuery (js "cat"))]) as (_ & _ & H).
    { repeat constructor; exact quiet_searching. }
    exact (H searching).
  - destruct (search_gating ∅ [(searching, SetSearchQuery (js "cat"))])
      as (H & _ & _).
    { repeat constructor; exact quiet_searching. }
    destruct H as [Hr He]; [left; reflexivity|].
    split; [reflexivity|]. split; [reflexivity|].
    split; [exact Hr | exact (He searching)].
Defined.

(** * Further properties of the code *)

(** ** The session across requests and reloads *)

Lemma storeTokens_access (d : ResponseData) (w : World) :
  localStorage (storeTokens d w) !! js "access_token"
  = Some (String_ (data_access d)).
Proof.
  unfold storeTokens. cbn [localStorage setLocalStorage setDefaultAuthorization].
  rewrite lookup_insert_ne by (symmetry; exact access_refresh_distinct).
  apply lookup_insert_eq.
Qed.

Lemma storeTokens_refresh (d : ResponseData) (w : World) :
  localStorage (storeTokens d w) !! js "refresh_token"
  = Some (String_ (data_refresh d)).
Proof.
  unfold storeTokens. cbn [localStorage setLocalStorage setDefaultAuthorization].
  apply lookup_insert_eq.
Qed.

(** X1. When both requests of [login] succeed, [login] resolves to [true]
    in the state in which the profile answer arrived, with the fetched
    profile as user and a success notification.  Before the profile request
    both tokens are in [localStorage] under their keys, so that the profile
    request itself leaves with the new access token as bearer credential,
    whatever was stored or set as default header before. *)
Theorem login_success (env : Env) (w : World) (username password : jsstring)
  (access refresh : JsValue) (profile : User.t) :
  let cfg := tokenConfig username password in
  let w2 := storeTokens (TokenData access refresh) (resumed env w cfg) in
  let w3 := resumed env w2 profileConfig in
  let out := run env (login username password) w in
  reply env w cfg = Fulfilled (TokenData access refresh) →
  reply env w2 profileConfig = Fulfilled (UserData profile) →
  out = (Resolved true,
         emit (ToastSuccess (js "Logged in successfully!"))
           (setUser (Some profile) w3))
  ∧ localStorage w2 !! js "access_token" = Some (String_ access)
  ∧ localStorage w2 !! js "refresh_token" = Some (String_ refresh)
  ∧ Authorization (outbound w2 profileConfig)
    = Some (js "Bearer " ++ String_ access).
Proof.
  intros cfg w2 w3 out Ht Hp. subst out. rewrite run_login.
  fold cfg. cbv zeta. rewrite Ht. fold w2. rewrite Hp. fold w3.
  split; [reflexivity|].
  split; [apply (storeTokens_access (TokenData access refresh))|].
  split; [apply (storeTokens_refresh (TokenData access refresh))|].
  unfold outbound, requestInterceptor.
  replace (urlIncludes (mergeDefaults w2 profileConfig) (js "token"))
    with false by reflexivity.
  replace (urlIncludes (mergeDefaults w2 profileConfig) (js "login"))
    with false by reflexivity.
  cbn [negb andb].
  assert (Ha : localStorage w2 !! js "access_token" = Some (String_ access))
    by apply (storeTokens_access (TokenData access refresh)).
  rewrite Ha. destruct (truthyStr (String_ access)); reflexivity.
Qed.

Lemma login_success_witness :
  let out := run returning (login (js "ann") (js "pw")) (initialWorld ∅) in
  fst out = Resolved true
  ∧ user (snd out) = Some {| User.id := 42;
                             User.email := js "ann@example.org";
                             User.username := js "ann" |}
  ∧ List.filter isRequest (trace (snd out))
    = [Request (tokenConfig (js "ann") (js "pw"));
       Request {| url := Some (js "/api/users/me/"); method := GET;
                  data := NoBody;
                  Authorization := Some (js "Bearer abc") |}].
Proof.
  intros out.
  destruct (login_success returning (initialWorld ∅) (js "ann") (js "pw")
              (JsStr (js "abc")) (JsStr (js "xyz"))
              {| User.id := 42; User.email := js "ann@example.org";
                 User.username := js "ann" |})
    as (Ho & _ & _ & _); [reflexivity | reflexivity |].
  subst out. rewrite Ho. repeat split.
Defined.

(** X2. Once the token request of [login] has succeeded with a non-empty
    access token, [login] has stored that token before it sends the profile
    request, and it never removes it: [localStorage] when [login] returns
    is [localStorage] as it was when the profile answer arrived, whether
    the profile request succeeded ([login] resolves to [true]) or failed
    ([login] resolves to [false]).  So when nothing else has removed or
    replaced the stored token while the profile request was pending, the
    token is in [localStorage] when [login] returns, and a later load of the
    page with that storage, on a platform that decodes the token, is
    authenticated as the user of the token's claims. *)
Theorem issued_token_survives_reload (env env' : Env) (w : World)
  (username password a : jsstring) (refresh : JsValue) (c : Claims) :
  let cfg := tokenConfig username password in
  let w2 := storeTokens (TokenData (JsStr a) refresh) (resumed env w cfg) in
  let w3 := resumed env w2 profileConfig in
  let out := run env (login username password) w in
  let reloaded :=
    run env' AuthProvider_init (initialWorld (localStorage (snd out))) in
  reply env w cfg = Fulfilled (TokenData (JsStr a) refresh) →
  a ≠ [] →
  decode env' a = Some c →
  localStorage w2 !! js "access_token" = Some a
  ∧ localStorage (snd out) = localStorage w3
  ∧ (∀ d, reply env w2 profileConfig = Fulfilled d → fst out = Resolved true)
  ∧ (∀ e, reply env w2 profileConfig = Failed e → fst out = Resolved false)
  ∧ (localStorage w3 !! js "access_token" = Some a →
     localStorage (snd out) !! js "access_token" = Some a
     ∧ user (snd reloaded) = Some (claimsUser c)
     ∧ isAuthenticated (snd reloaded) = true).
Proof.
  intros cfg w2 w3 out reloaded Ht Hne Hd.
  assert (Hout : localStorage (snd out) = localStorage w3).
  { subst out. rewrite run_login. fold cfg. cbv zeta. rewrite Ht.
    fold w2. fold w3. now destruct (reply env w2 profileConfig). }
  split; [apply (storeTokens_access (TokenData (JsStr a) refresh))|].
  split; [exact Hout|].
  split.
  { intros d Hp. subst out. rewrite run_login. fold cfg. cbv zeta.
    rewrite Ht. fold w2. now rewrite Hp. }
  split.
  { intros e Hp. subst out. rewrite run_login. fold cfg. cbv zeta.
    rewrite Ht. fold w2. now rewrite Hp. }
  intros Hkept.
  assert (Hs : localStorage (snd out) !! js "access_token" = Some a)
    by now rewrite Hout.
  split; [exact Hs|].
  subst reloaded.
  rewrite (run_init_decoded env' (initialWorld (localStorage (snd out))) a c);
    [split; reflexivity | exact Hs | now apply truthyStr_true | exact Hd].
Qed.

Lemma issued_token_survives_reload_witness :
  let out := run flaky (login (js "ann") (js "pw")) (initialWorld ∅) in
  let reloaded :=
    run flaky AuthProvider_init (initialWorld (localStorage (snd out))) in
  fst out = Resolved false
  ∧ user (snd out) = None
  ∧ user (snd reloaded) = Some (claimsUser annClaims).
Proof.
  intros out reloaded.
  destruct (issued_token_survives_reload flaky flaky (initialWorld ∅)
              (js "ann") (js "pw") (js "abc") (JsStr (js "xyz")) annClaims)
    as (_ & _ & _ & Hf & Hk);
    [reflexivity | discriminate | reflexivity |].
  destruct Hk as (_ & Hu & _); [reflexivity|].
  split; [exact (Hf (ServerError 503 None) eq_refl)|].
  split; [reflexivity | exact Hu].
Defined.

(** X3. [logout] removes the stored tokens but leaves the default
    [Authorization] header of the client in place: after a [logout], a
    request that sets no header of its own still leaves with the header
    that an earlier [login] installed. *)
Theorem logout_keeps_default_header (env : Env) (w : World) (cfg : Config)
  (h : jsstring) :
  defaultAuthorization w = Some h →
  Authorization cfg = None →
  let w' := snd (run env logout w) in
  localStorage w' !! js "access_token" = None
  ∧ defaultAuthorization w' = Some h
  ∧ Authorization (outbound w' cfg) = Some h.
Proof.
  intros Hh Hc w'. subst w'. rewrite run_logout.
  cbn [snd localStorage defaultAuthorization emit setUser setLocalStorage].
  split; [apply purged_access|]. split; [exact Hh|].
  unfold outbound, requestInterceptor.
  cbn [localStorage emit setUser setLocalStorage].
  rewrite purged_access.
  assert (Hm : Authorization
    (mergeDefaults
       (emit (ToastSuccess (js "Logged out successfully"))
          (setUser None (setLocalStorage (purged (localStorage w)) w))) cfg)
    = Some h).
  { unfold mergeDefaults. rewrite Hc. exact Hh. }
  destruct (negb _ && negb _); exact Hm.
Qed.

Lemma logout_keeps_default_header_witness :
  let w1 := snd (run returning (login (js "ann") (js "pw")) (initialWorld ∅)) in
  let w2 := snd (run returning logout w1) in
  user w2 = None
  ∧ localStorage w2 !! js "access_token" = None
  ∧ Authorization (outbound w2 (getConfig (js "/chat/conversations/")))
    = Some (js "Bearer abc").
Proof.
  intros w1 w2.
  destruct (logout_keeps_default_header returning w1
              (getConfig (js "/chat/conversations/")) (js "Bearer abc"))
    as (Hs & _ & Ha); [reflexivity | reflexivity |].
  split; [reflexivity|]. split; [exact Hs | exact Ha].
Defined.

(** X4. [register] does not touch the session: whether the request
    succeeds or fails, the user, the stored tokens, the default header and
    the active conversation are those of the state in which the answer
    arrived; the call resolves to [true] exactly when the request
    succeeded, and it adds one notification. *)
Theorem register_leaves_session (env : Env) (w : World)
  (email username password : jsstring) :
  let cfg := registerConfig email username password in
  let w1 := resumed env w cfg in
  let out := run env (register email username password) w in
  user (snd out) = user w1
  ∧ localStorage (snd out) = localStorage w1
  ∧ defaultAuthorization (snd out) = defaultAuthorization w1
  ∧ currentConversation (snd out) = currentConversation w1
  ∧ (fst out = Resolved true ↔ ∃ d, reply env w cfg = Fulfilled d)
  ∧ (fst out = Resolved false ↔ ∃ e, reply env w cfg = Failed e)
  ∧ length (notifications (snd out)) = S (length (notifications w1)).
Proof.
  intros cfg w1 out. subst out. rewrite run_register. fold cfg. cbv zeta.
  fold w1. unfold notifications, reported.
  destruct (reply env w cfg) as [d|e]; cbn [fst snd user localStorage
    defaultAuthorization currentConversation trace emit];
    rewrite ?List.filter_app, ?List.length_app; cbn;
    (repeat split; try reflexivity; try lia;
     try (intros H; discriminate H); try (intros [x H]; discriminate H);
     try (intros _; eauto)).
Qed.

(** X5. The effect that runs when the page is mounted issues no request
    and raises no notification, and always completes with [isLoading]
    false.  Afterwards the page has a user exactly when [localStorage]
    held a non-empty access token that decodes, and that user is made of
    the claims of the token; in that case [localStorage] is untouched. *)
Theorem mount_authenticated_iff (env : Env) (st : gmap jsstring jsstring) :
  let out := run env AuthProvider_init (initialWorld st) in
  fst out = Resolved tt
  ∧ isLoading (snd out) = false
  ∧ requests (snd out) = []
  ∧ notifications (snd out) = []
  ∧ (∀ u, user (snd out) = Some u ↔
       ∃ token c, st !! js "access_token" = Some token ∧ token ≠ []
                  ∧ decode env token = Some c ∧ u = claimsUser c)
  ∧ (isAuthenticated (snd out) = true → localStorage (snd out) = st).
Proof.
  intros out. subst out.
  destruct (st !! js "access_token") as [token|] eqn:Hs.
  - destruct token as [|x token].
    + rewrite (run_init_no_token env (initialWorld st)) by (right; exact Hs).
      repeat split; try discriminate.
      intros (t & c & Ht & Hne & _). congruence.
    + destruct (decode env (x :: token)) as [c|] eqn:Hd.
      * rewrite (run_init_decoded env (initialWorld st) (x :: token) c Hs
                   eq_refl Hd).
        repeat split.
        -- intros H. cbn in H. injection H as <-.
           exists (x :: token), c. repeat split; [discriminate | exact Hd].
        -- intros (t & c' & Ht & _ & Hd' & ->). cbn.
           injection Ht as <-. congruence.
      * rewrite (run_init_undecodable env (initialWorld st) (x :: token) Hs
                   eq_refl Hd).
        repeat split; try discriminate.
        intros (t & c' & Ht & _ & Hd' & _). injection Ht as <-. congruence.
  - rewrite (run_init_no_token env (initialWorld st)) by (left; exact Hs).
    repeat split; try discriminate.
    intros (t & c & Ht & _). discriminate.
Qed.

(** ** The conversation store: what the operations leave alone *)

(** X6. [createNewConversation] asks for a conversation titled
    [New Conversation] and never makes it the active one: whether the
    request succeeds or fails, the active conversation, the search query and
    the session are those of the state in which the answer arrived.  On
    success the call resolves to the body of the answer and the
    conversation collection is invalidated once. *)
Theorem createNewConversation_not_activated (env : Env) (w : World) :
  let w1 := resumed env w createConfig in
  let out := run env createNewConversation w in
  data createConfig = TitleBody (js "New Conversation")
  ∧ currentConversation (snd out) = currentConversation w1
  ∧ searchQuery (snd out) = searchQuery w1
  ∧ user (snd out) = user w1
  ∧ localStorage (snd out) = localStorage w1
  ∧ (∀ d, reply env w createConfig = Fulfilled d →
       fst out = Resolved d
       ∧ trace (snd out) = trace w1 ++ [InvalidateQueries (js "conversations")]).
Proof.
  intros w1 out. subst out. rewrite run_createNewConversation. fold w1.
  split; [reflexivity|].
  destruct (reply env w createConfig) as [d|e]; cbn [fst snd].
  - do 4 (split; [reflexivity|]). intros d' Hd. injection Hd as <-.
    split; reflexivity.
  - do 4 (split; [reflexivity|]). intros d' Hd. discriminate Hd.
Qed.

Lemma createNewConversation_not_activated_witness :
  let out :=
    run (backend (Fulfilled (ConversationData conv8))) createNewConversation
      chatting in
  fst out = Resolved (ConversationData conv8)
  ∧ currentConversation (snd out) = Some conv7.
Proof.
  intros out.
  destruct (createNewConversation_not_activated
              (backend (Fulfilled (ConversationData conv8))) chatting)
    as (_ & Hc & _ & _ & _ & H).
  destruct (H (ConversationData conv8) eq_refl) as [Ho _].
  split; [exact Ho | exact Hc].
Defined.

Lemma run_loadConversation (env : Env) (w : World) (id : jsstring) :
  run env (loadConversation id) w =
  let w1 := resumed env w (loadConfig id) in
  match reply env w (loadConfig id) with
  | Fulfilled d => (Resolved tt, setCurrentConversation (data_conversation d) w1)
  | Failed e =>
      (Resolved tt,
       reported (js "Error loading conversation:")
         (js "Failed to load conversation") w1)
  end.
Proof.
  unfold loadConversation, api_get, console_error, toast_error. run_simpl.
  fold (loadConfig id).
  destruct (reply env w (loadConfig id)); run_simpl; reflexivity.
Qed.

Lemma run_detached (env : Env) (m : Proc unit) (w : World) :
  run env (try_catch m (λ _, Ret tt);; Ret tt) w
  = (Resolved tt, snd (run env m w)).
Proof.
  rewrite run_bind, run_try_catch.
  destruct (run env m w) as [[[]|e] w']; reflexivity.
Qed.

(** The load of a conversation within the render cycle. *)
Lemma run_observed_loadConversation (env : Env)
  (effect : option Conversation.t → Proc unit) (w : World) (id : jsstring) :
  run env (observed effect (loadConversation id)) w =
  let w1 := resumed env w (loadConfig id) in
  match reply env w (loadConfig id) with
  | Fulfilled d =>
      let w2 := setCurrentConversation (data_conversation d) w1 in
      (Resolved tt,
       match idChanged w1 w2 with
       | Some c => snd (run env (effect c) w2)
       | None => w2
       end)
  | Failed e =>
      (Resolved tt,
       reported (js "Error loading conversation:")
         (js "Failed to load conversation") w1)
  end.
Proof.
  unfold loadConversation, api_get, await, console_error, toast_error,
    modify, mbind, Proc_bind.
  cbn [bind try_catch observed run]. fold (loadConfig id).
  fold (outbound w (loadConfig id)). fold (reply env w (loadConfig id)).
  fold (resumed env w (loadConfig id)).
  destruct (reply env w (loadConfig id)) as [d|e];
    cbn [bind try_catch observed run fst snd].
  - destruct (idChanged _ _) as [c|]; [|reflexivity].
    apply (run_detached env (effect c)).
  - unfold idChanged. rewrite decide_True by reflexivity.
    cbn [bind try_catch observed run fst snd].
    rewrite decide_True by reflexivity. reflexivity.
Qed.

(** The user's update within the render cycle. *)
Lemma run_observed_select (env : Env)
  (effect : option Conversation.t → Proc unit) (w : World)
  (c : option Conversation.t) :
  run env (observed effect (modify (setCurrentConversation c))) w =
  let w0 := setCurrentConversation c w in
  (Resolved tt,
   match idChanged w w0 with
   | Some c' => snd (run env (effect c') w0)
   | None => w0
   end).
Proof.
  unfold modify. cbn [observed run fst snd].
  destruct (idChanged _ _) as [c'|]; [|reflexivity].
  apply (run_detached env (effect c')).
Qed.

Lemma idChanged_Some (w w' : World) (i : jsstring) :
  conversationId (currentConversation w') = Some i →
  conversationId (currentConversation w) ≠ Some i →
  idChanged w w' = Some (currentConversation w').
Proof.
  intros E N. unfold idChanged. rewrite E.
  apply decide_False. congruence.
Qed.

Lemma idChanged_None (w w' : World) (i : jsstring) :
  conversationId (currentConversation w') = Some i →
  conversationId (currentConversation w) = Some i →
  idChanged w w' = None.
Proof.
  intros E N. unfold idChanged. rewrite E.
  apply decide_True. congruence.
Qed.

(** X7. Selecting a conversation treats the given object as an id hint.
    When its id is that of the conversation already active, the object
    becomes the active conversation and no request is made.  Otherwise,
    with a non-empty id, the load effect fetches the conversation by id.
    When the request fails, the active conversation of that moment stays
    and the failure is reported.  When the answer is a conversation, that
    conversation replaces whatever is active at that moment; if it has the
    id that was active at that moment, nothing more happens; if it has
    another id, the effect runs again, and the page goes on as it does when
    the fetched conversation itself is selected in that state (with the
    renders that are left).  Selecting never rejects. *)
Theorem select_conversation (env : Env) (w : World) (c : Conversation.t)
  (n : nat) :
  let w0 := setCurrentConversation (Some c) w in
  let cfg := loadConfig (Conversation.id c) in
  let w1 := resumed env w0 cfg in
  let out :=
    run env (rendered (S n) (perform (SetCurrentConversation (Some c)) w))
      w in
  fst out = Resolved tt
  ∧ (conversationId (currentConversation w) = Some (Conversation.id c) →
     snd out = w0)
  ∧ (conversationId (currentConversation w) ≠ Some (Conversation.id c) →
     Conversation.id c ≠ [] →
     (∀ e, reply env w0 cfg = Failed e →
        snd out = reported (js "Error loading conversation:")
                    (js "Failed to load conversation") w1)
     ∧ (∀ c', reply env w0 cfg = Fulfilled (ConversationData c') →
          let w2 := setCurrentConversation (Some c') w1 in
          (conversationId (currentConversation w1) = Some (Conversation.id c') →
           snd out = w2)
          ∧ (conversationId (currentConversation w1)
             ≠ Some (Conversation.id c') →
             snd out =
             snd (run env
                    (rendered n
                       (perform (SetCurrentConversation (Some c')) w1))
                    w1)))).
Proof.
  intros w0 cfg w1 out. subst out. cbn [perform].
  rewrite rendered_unfold, run_observed_select. cbv zeta. fold w0.
  cbn [fst snd].
  split; [reflexivity|]. split.
  { intros Hsame. now rewrite (idChanged_None w w0 (Conversation.id c)). }
  intros Hother Hne. apply truthyStr_true in Hne.
  rewrite (idChanged_Some w w0 (Conversation.id c)) by (reflexivity || exact Hother).
  cbn [currentConversation w0 setCurrentConversation].
  assert (E : loadEffect (Some c) = loadConversation (Conversation.id c))
    by (unfold loadEffect; now rewrite Hne).
  rewrite !E.
  rewrite (rendered_unfold n (loadConversation (Conversation.id c))).
  rewrite run_observed_loadConversation. fold cfg. cbv zeta. fold w1.
  split; [intros e Hr; now rewrite Hr|].
  intros c' Hr. rewrite Hr. cbn [snd data_conversation].
  set (w2 := setCurrentConversation (Some c') w1).
  split.
  - intros Hsame.
    now rewrite (idChanged_None w1 w2 (Conversation.id c')).
  - intros Hdiff.
    rewrite (idChanged_Some w1 w2 (Conversation.id c'))
      by (reflexivity || exact Hdiff).
    rewrite rendered_unfold, run_observed_select. cbv zeta. fold w2.
    rewrite (idChanged_Some w1 w2 (Conversation.id c'))
      by (reflexivity || exact Hdiff).
    reflexivity.
Qed.

Lemma select_conversation_witness :
  (let env := backend (Fulfilled (ConversationData conv8)) in
   let w := setIsLoading false (initialWorld ∅) in
   let out :=
     run env (rendered 1 (perform (SetCurrentConversation (Some conv7)) w))
       w in
   requests (snd out)
   = [Request (loadConfig (js "7")); Request (loadConfig (js "8"))]
   ∧ currentConversation (snd out) = Some conv8)
  ∧ (let env := interrupting (Fulfilled (ConversationData served7)) in
     let w := setIsLoading false (initialWorld ∅) in
     let out :=
       run env (rendered 1 (perform (SetCurrentConversation (Some conv7)) w))
         w in
     requests (snd out)
     = [Request (loadConfig (js "7")); Request (loadConfig (js "8"));
        Request (loadConfig (js "7"))]
     ∧ currentConversation (snd out) = Some served7).
Proof.
  split.
  - intros env w out.
    destruct (select_conversation env w conv7 0) as (_ & _ & H).
    destruct H as [_ H]; [discriminate | discriminate |].
    destruct (H conv8 eq_refl) as [_ Hgo].
    subst out. rewrite Hgo by discriminate.
    split; reflexivity.
  - intros env w out.
    destruct (select_conversation env w conv7 0) as (_ & _ & H).
    destruct H as [_ H]; [discriminate | discriminate |].
    destruct (H served7 eq_refl) as [_ Hgo].
    subst out. rewrite Hgo by discriminate.
    split; reflexivity.
Defined.

(** X8. While the search query is enabled, its observer sends the query
    as it was typed, untrimmed, with the id of the active conversation.
    When the request succeeds, the results of the body, or [[]] when the
    body has none, are cached under the key of the render that started the
    request, and they are the search results as long as that key is still
    the current one; when the request fails the observer completes without
    a notification and the cache is what it was. *)
Theorem search_fetch (env : Env) (w : World) (q : jsstring)
  (cur : Conversation.t) :
  searchEnabled q (Some cur) = true →
  let cfg := searchConfig q cur in
  let w1 := resumed env w cfg in
  let key := (q, Some (Conversation.id cur)) in
  let out := run env (searchObserver q (Some cur)) w in
  fst out = Resolved tt
  ∧ data cfg = SearchBody q (Conversation.id cur)
  ∧ (∀ d, reply env w cfg = Fulfilled d →
       let results := default [] (data_search_results d) in
       snd out = setSearchCache (<[key := results]> (searchCache w1)) w1
       ∧ (searchKey w1 = key → searchResults (snd out) = results))
  ∧ (∀ e, reply env w cfg = Failed e → snd out = w1).
Proof.
  intros He cfg w1 key out. subst out.
  unfold searchObserver. rewrite He.
  unfold searchEnabled, hasId in He. cbn in He.
  apply andb_true_iff in He as [Hq Hi].
  unfold searchQueryFn, api_post. rewrite Hq, Hi. cbn [negb orb].
  run_simpl. fold (searchConfig q cur). fold cfg. fold w1.
  destruct (reply env w cfg) as [d|e]; run_simpl; cbn [fst snd].
  - split; [reflexivity|]. split; [reflexivity|].
    split; [|intros e He; discriminate He].
    intros d' Hd. injection Hd as <-. split; [reflexivity|].
    intros Hk. unfold searchResults.
    replace (searchKey (setSearchCache
      (<[(q, conversationId (Some cur)) := default [] (data_search_results d)]>
         (searchCache w1)) w1)) with key by (symmetry; exact Hk).
    cbn [searchCache setSearchCache]. fold key.
    now rewrite lookup_insert_eq.
  - split; [reflexivity|]. split; [reflexivity|].
    split; [intros d Hd; discriminate Hd|]. intros e' _. reflexivity.
Qed.

Lemma search_fetch_witness :
  let w := setSearchQuery (js " cat ") chatting in
  let out := run searching (searchObserver (js " cat ") (Some conv7)) w in
  List.filter isRequest (trace (snd out))
  = [Request (postConfig (js "/chat/") (SearchBody (js " cat ") (js "7")))]
  ∧ searchResults (snd out) = [JsStr (js "a cat")].
Proof.
  intros w out.
  destruct (search_fetch searching w (js " cat ") conv7 eq_refl)
    as (_ & _ & H & _).
  destruct (H _ eq_refl) as [Hs Hr].
  split; [reflexivity | exact (Hr eq_refl)].
Defined.

(** X9. [sendMessage] only ever appends: in every case the messages
    afterwards are the messages of the state in which the answer arrived
    (of the state of the call, when the guard returns at once) followed by
    no message or by two.  It never switches conversation, and it never
    touches the user, [localStorage], the default header, the search query
    or its cache. *)
Theorem sendMessage_append_only (env : Env) (w : World)
  (active : option Conversation.t) (content : jsstring) :
  let w1 := sendBase env w active content in
  let w' := snd (run env (sendMessage active content) w) in
  (∃ added, messages w' = messages w1 ++ added
            ∧ (added = [] ∨ length added = 2))
  ∧ conversationId (currentConversation w')
    = conversationId (currentConversation w1)
  ∧ user w' = user w1
  ∧ localStorage w' = localStorage w1
  ∧ defaultAuthorization w' = defaultAuthorization w1
  ∧ searchQuery w' = searchQuery w1
  ∧ searchCache w' = searchCache w1.
Proof.
  intros w1 w'. subst w' w1. unfold sendBase, sendMessage.
  destruct active as [cur|].
  2:{ cbn [run snd]. split; [exists []; rewrite app_nil_r; auto|].
      repeat split. }
  destruct (negb (truthyStr (trim content))
            || negb (truthyStr (Conversation.id cur))).
  { cbn [run snd]. split; [exists []; rewrite app_nil_r; auto|].
    repeat split. }
  unfold api_post, invalidateQueries, console_error, toast_error.
  run_simpl. fold (sendConfig cur content).
  set (w1 := resumed env (setIsSending true w) (sendConfig cur content)).
  destruct (reply env _ _) as [d|e]; run_simpl.
  2:{ cbn [snd]. split; [exists []; rewrite app_nil_r; auto|]. repeat split. }
  destruct (truthy (data_response d)); run_simpl.
  2:{ cbn [snd]. split; [exists []; rewrite app_nil_r; auto|]. repeat split. }
  unfold appendExchange. run_simpl.
  destruct (currentConversation w1) as [prev|] eqn:Hprev; run_simpl;
    cbn [snd]; unfold messages;
    cbn [currentConversation setIsSending emit setCurrentConversation tick
         user localStorage defaultAuthorization searchQuery searchCache];
    rewrite ?Hprev.
  - split; [eexists; split; [reflexivity | right; reflexivity]|].
    repeat split.
  - split; [exists []; auto|]. repeat split.
Qed.

(** ** The chat input and the chat interface *)

Lemma trimStart_fixed (s : jsstring) :
  (∀ c r, s = c :: r → isWhiteSpace c = false) → trimStart s = s.
Proof.
  destruct s as [|c r]; [reflexivity|]. intros H. cbn.
  now rewrite (H c r eq_refl).
Qed.

Lemma trimStart_split (s : jsstring) :
  ∃ p, s = p ++ trimStart s ∧ ∀ c, c ∈ p → isWhiteSpace c = true.
Proof.
  induction s as [|c s (p & Hp & Hws)]; cbn.
  - exists []. split; [reflexivity | intros c Hc; inversion Hc].
  - destruct (isWhiteSpace c) eqn:Hc.
    + exists (c :: p). split; [cbn; now f_equal|].
      intros x Hx. apply elem_of_cons in Hx as [-> | Hx]; auto.
    + exists []. split; [reflexivity | intros x Hx; inversion Hx].
Qed.

(** Trimming twice is trimming once. *)
Lemma trim_idempotent (s : jsstring) : trim (trim s) = trim s.
Proof.
  unfold trim, trimEnd.
  set (u := trimStart s).
  destruct (trimStart_head (rev u)) as [E | (c & v & E & Hc)].
  - rewrite E. reflexivity.
  - rewrite E.
    destruct (trimStart_split (rev u)) as (p & Hp & _). rewrite E in Hp.
    assert (Hu : u = rev (c :: v) ++ rev p).
    { rewrite <- (rev_involutive u), Hp, rev_app_distr. reflexivity. }
    assert (Hhead : trimStart (rev (c :: v)) = rev (c :: v)).
    { apply trimStart_fixed. intros x r Hx.
      destruct (trimStart_head s) as [E' | (y & t & E' & Hy)].
      - fold u in E'. rewrite E' in Hu. rewrite Hx in Hu. discriminate.
      - fold u in E'. rewrite E' in Hu. rewrite Hx in Hu.
        cbn in Hu. injection Hu as <- _. exact Hy. }
    rewrite Hhead, rev_involutive.
    cbn [trimStart]. rewrite Hc. reflexivity.
Qed.

Lemma submit_is_sendMessage_aux (active : option Conversation.t)
  (message : jsstring) :
  ChatInput_handleSubmit (sendMessage active) false message
  = (if truthyStr (trim message) then [] else message,
     sendMessage active message)
  ∧ ChatInput_handleSubmit (sendMessage active) true message
    = (message, Ret tt).
Proof.
  unfold ChatInput_handleSubmit. split.
  - destruct (truthyStr (trim message)) eqn:Ht; cbn [negb orb].
    + f_equal. unfold sendMessage, appendExchange.
      now rewrite !trim_idempotent.
    + f_equal. unfold sendMessage. rewrite Ht.
      now destruct active.
  - now rewrite orb_true_r.
Qed.

(** X10. Submitting the chat input trims the text and [sendMessage] trims
    it again, to the same effect: while no send is pending, the call that
    a submit awaits is [sendMessage] on the text as typed, and the input is
    cleared exactly when the text is not blank.  While a send is pending a
    submit does nothing and keeps the text. *)
Theorem submit_is_sendMessage (active : option Conversation.t)
  (message : jsstring) :
  ChatInput_handleSubmit (sendMessage active) false message
  = (if truthyStr (trim message) then [] else message,
     sendMessage active message)
  ∧ ChatInput_handleSubmit (sendMessage active) true message
    = (message, Ret tt).
Proof. apply submit_is_sendMessage_aux. Qed.

(** X11. The chat input is there whether or not a conversation is active.
    Submitting a text that is not blank while no conversation is active
    clears the input and does nothing else: the call resolves with the
    state of the page unchanged, so that no request is made and no
    notification is raised. *)
Theorem submit_without_conversation (env : Env) (w : World)
  (message : jsstring) :
  trim message ≠ [] →
  let submitted := ChatInput_handleSubmit (sendMessage None) false message in
  fst submitted = []
  ∧ run env (snd submitted) w = (Resolved tt, w).
Proof.
  intros Hne submitted. subst submitted.
  destruct (submit_is_sendMessage_aux None message) as [E _].
  rewrite E. apply truthyStr_true in Hne. rewrite Hne.
  split; reflexivity.
Qed.

Lemma submit_without_conversation_witness :
  let submitted :=
    ChatInput_handleSubmit (sendMessage None) false (js "hello") in
  fst submitted = []
  ∧ run (backend unavailable) (snd submitted) (initialWorld ∅)
    = (Resolved tt, initialWorld ∅).
Proof.
  apply submit_without_conversation. discriminate.
Defined.

(** X12. [handleNewChat] never rejects.  When the request fails it raises
    one error notification and changes nothing else, the sidebar
    included.  When the request succeeds the conversation collection is
    invalidated and the search query is cleared, the active conversation
    stays what it was, and the sidebar is closed exactly on a window
    narrower than 768 pixels. *)
Theorem handleNewChat_outcomes (env : Env) (w : World) (innerWidth : Z)
  (isSidebarOpen : bool) :
  let w1 := resumed env w createConfig in
  let out := run env (handleNewChat innerWidth isSidebarOpen) w in
  (∃ sidebar, fst out = Resolved sidebar)
  ∧ (∀ d, reply env w createConfig = Fulfilled d →
       out = (Resolved (if (innerWidth <? 768)%Z then false
                        else isSidebarOpen),
              setSearchQuery []
                (emit (InvalidateQueries (js "conversations")) w1)))
  ∧ (∀ e, reply env w createConfig = Failed e →
       out = (Resolved isSidebarOpen,
              emit (ToastError (js "Failed to create a new conversation"))
                w1)).
Proof.
  intros w1 out. subst out. unfold handleNewChat, toast_error.
  rewrite run_try_catch, run_bind, run_createNewConversation. fold w1.
  destruct (reply env w createConfig) as [d|e]; run_simpl.
  - destruct (innerWidth <? 768)%Z; run_simpl;
      (split; [now eexists|]);
      (split; [intros d' _; reflexivity | intros e H; discriminate H]).
  - split; [now eexists|].
    split; [intros d H; discriminate H | intros e' _; reflexivity].
Qed.

Lemma handleNewChat_outcomes_witness :
  let out := run (backend unavailable) (handleNewChat 1024 true) chatting in
  fst out = Resolved true
  ∧ notifications (snd out)
    = [ToastError (js "Failed to create a new conversation")]
  ∧ currentConversation (snd out) = Some conv7.
Proof.
  intros out.
  destruct (handleNewChat_outcomes (backend unavailable) chatting 1024 true)
    as (_ & _ & H).
  subst out. rewrite (H _ eq_refl). repeat split.
Defined.

(** ** Routing *)

Lemma init_loaded (env : Env) (w : World) :
  isLoading (snd (run env AuthProvider_init w)) = false.
Proof.
  unfold AuthProvider_init. rewrite run_bind.
  destruct (run env _ w) as [[x|e] w1] eqn:E.
  - rewrite run_bind. destruct (run env _ w1) as [[[]|e] w2] eqn:E2.
    + reflexivity.
    + exfalso. revert E2.
      destruct x as [token|]; [destruct (truthyStr token)|];
        try (cbn; discriminate).
      unfold jwtDecode, localStorage_removeItem, console_error.
      cbn [bind mbind Proc_bind try_catch run modify].
      destruct (decode env token); cbn; discriminate.
  - cbn in E. discriminate.
Qed.

(** X13. Once the page has loaded, every location settles after at most
    two redirects, so that the route guards cannot send the browser in a
    circle: with a user the main layout is shown, wherever the browser
    started; without a user the registration form is shown when the
    browser started there, and the login form otherwise.  The effect of
    mounting the page always leaves it loaded, so that after it the routes
    never show their loader. *)
Theorem routes_settle (l : Location) (w : World) :
  (isLoading w = false →
   settle 2 l w
   = Some match user w with
          | Some _ => MainLayout
          | None => match l with
                    | AtRegister => RegisterForm
                    | _ => LoginForm
                    end
          end)
  ∧ (∀ env, ∃ page,
       settle 2 l (snd (run env AuthProvider_init w)) = Some page
       ∧ page ≠ Loader).
Proof.
  assert (H : ∀ w', isLoading w' = false →
    settle 2 l w'
    = Some match user w' with
           | Some _ => MainLayout
           | None => match l with
                     | AtRegister => RegisterForm
                     | _ => LoginForm
                     end
           end).
  { intros w' Hl.
    destruct l; cbn [settle router]; unfold PublicRoute, ProtectedRoute;
      rewrite ?Hl; destruct (user w') eqn:Hu; cbn [settle router];
      unfold PublicRoute, ProtectedRoute; rewrite ?Hl, ?Hu;
      cbn [settle router]; unfold PublicRoute, ProtectedRoute;
      rewrite ?Hl, ?Hu; reflexivity. }
  split; [apply H|].
  intros env. eexists. split; [apply H, init_loaded|].
  destruct (user _); [discriminate|]. destruct l; discriminate.
Qed.

Lemma routes_settle_witness :
  settle 2 Elsewhere (setIsLoading false (initialWorld ∅)) = Some LoginForm.
Proof.
  destruct (routes_settle Elsewhere (setIsLoading false (initialWorld ∅)))
    as [H _].
  apply H. reflexivity.
Defined.

(** ** ChatMessage *)

Lemma takeWord_app (s : jsstring) :
  s = (takeWord s).1 ++ (takeWord s).2.
Proof.
  induction s as [|c s IH]; cbn [takeWord]; [reflexivity|].
  destruct (isWordChar c); [|reflexivity].
  destruct (takeWord s) as [word rest]. cbn in *. now f_equal.
Qed.

Lemma startsWith_drop (s search : jsstring) :
  startsWith s search = true → s = search ++ drop (length search) s.
Proof.
  intros H. apply startsWith_spec in H as [post ->].
  now rewrite drop_app_length.
Qed.

Lemma findFenceClose_app (s code rest : jsstring) :
  findFenceClose s = Some (code, rest) → s = code ++ fenceClose ++ rest.
Proof.
  revert code rest. induction s as [|c s IH]; intros code rest.
  - cbn. discriminate.
  - cbn [findFenceClose].
    destruct (startsWith (c :: s) fenceClose) eqn:E.
    + intros H. injection H as <- <-. cbn [app].
      exact (startsWith_drop (c :: s) fenceClose E).
    + destruct (findFenceClose s) as [[code' rest']|]; [|discriminate].
      intros H. injection H as <- <-. cbn [app]. f_equal. now apply IH.
Qed.

(** A match is made of its two groups the way the replacement puts them
    together again. *)
Lemma matchFence_app (s lang code rest : jsstring) :
  matchFence s = Some (lang, code, rest) →
  s = fenceReplacement lang code ++ rest.
Proof.
  unfold matchFence, fenceReplacement.
  destruct (startsWith s (js "```")) eqn:E; [|discriminate].
  apply startsWith_drop in E. change (length (js "```")) with 3 in E.
  pose proof (takeWord_app (drop 3 s)) as Hw.
  destruct (takeWord (drop 3 s)) as [word s1]. cbn [fst snd] in Hw.
  destruct s1 as [|x s2]; [discriminate|].
  destruct (N.eq_dec x 10%N) as [->|Hx].
  - destruct (findFenceClose s2) as [[code' rest']|] eqn:Hc; [|discriminate].
    intros H. injection H as <- <- <-.
    apply findFenceClose_app in Hc.
    rewrite E at 1. rewrite Hw, Hc.
    rewrite <- !app_assoc. cbn [app]. rewrite <- !app_assoc. reflexivity.
  - destruct x as [|p]; [discriminate|].
    do 4 (destruct p as [p|p|]; try discriminate).
    congruence.
Qed.

Lemma replaceFences_drop (s : jsstring) (skip : nat) :
  skip ≤ length s → replaceFences s skip = drop skip s.
Proof.
  revert skip. induction s as [|c s IH]; intros skip Hs.
  - now destruct skip.
  - cbn [replaceFences]. destruct skip as [|k].
    + destruct (matchFence (c :: s)) as [[[lang code] rest]|] eqn:Hm.
      * apply matchFence_app in Hm.
        assert (Hrest : length rest ≤ length s).
        { apply (f_equal length) in Hm. rewrite length_app in Hm.
          unfold fenceReplacement in Hm. rewrite !length_app in Hm.
          cbn in Hm. lia. }
        rewrite IH by lia. cbn [drop].
        assert (Hd : drop (length (c :: s) - length rest) (c :: s) = rest).
        { rewrite Hm at 2. rewrite Hm at 1. rewrite length_app.
          replace (length (fenceReplacement lang code) + length rest
                   - length rest) with (length (fenceReplacement lang code))
            by lia.
          apply drop_app_length. }
        cbn [length] in Hd.
        replace (S (length s) - length rest)
          with (S (length s - length rest)) in Hd by lia.
        cbn [drop] in Hd. rewrite Hd. now rewrite <- Hm.
      * rewrite IH by lia. reflexivity.
    + cbn [length] in Hs. rewrite IH by lia. reflexivity.
Qed.

(** The expression does match a fenced block, with or without a
    language, and not a fence without content. *)
Example matchFence_examples :
  matchFence (js "```js" ++ 10%N :: js "x = 1" ++ fenceClose ++ js " end")
  = Some (js "js", js "x = 1", js " end")
  ∧ matchFence (js "```" ++ 10%N :: fenceClose) = Some ([], [], [])
  ∧ matchFence (js "```" ++ fenceClose) = None.
Proof. repeat split. Qed.

(** X14. [formatMessageContent] changes nothing: each match of its
    regular expression is replaced by a text that is, code unit for code
    unit, the match itself, so that the content of a message reaches the
    markdown renderer as it is. *)
Theorem formatMessageContent_identity (content : jsstring) :
  formatMessageContent content = content.
Proof.
  unfold formatMessageContent. rewrite replaceFences_drop by lia.
  reflexivity.
Qed.

Lemma ChatMessage_editing_user (props : ChatMessage.Props)
  (st : ChatMessage.State) (ev : ChatMessage.UiEvent) :
  (ChatMessage.isEditing st = true →
   ChatMessage.isUser props = true ∧ ChatMessage.onEdit props = true) →
  ChatMessage.isEditing (ChatMessage.react props st ev).1 = true →
  ChatMessage.isUser props = true ∧ ChatMessage.onEdit props = true.
Proof.
  intros Hinv. unfold ChatMessage.react.
  destruct (ChatMessage.offered props st ev) eqn:Ho; [|exact Hinv].
  unfold ChatMessage.offered in Ho.
  destruct (ChatMessage.isEditing st) eqn:He.
  - intros _. now apply Hinv.
  - destruct (ChatMessage.isSystem props); [discriminate|].
    destruct ev; cbn; try (rewrite He; discriminate); try discriminate.
    intros _. apply andb_true_iff in Ho as [Ho Hedit].
    apply andb_true_iff in Ho as [_ Huser]. now split.
Qed.

Lemma ChatMessage_calls_of_react (props : ChatMessage.Props)
  (st : ChatMessage.State) (ev : ChatMessage.UiEvent) (c : ChatMessage.Call) :
  (ChatMessage.isEditing st = true →
   ChatMessage.isUser props = true ∧ ChatMessage.onEdit props = true) →
  c ∈ (ChatMessage.react props st ev).2 →
  match c with
  | ChatMessage.CallOnEdit id _ =>
      id = Message.id (ChatMessage.message props)
      ∧ ChatMessage.isUser props = true ∧ ChatMessage.onEdit props = true
  | ChatMessage.CallOnDelete id =>
      id = Message.id (ChatMessage.message props)
      ∧ ChatMessage.isUser props = true ∧ ChatMessage.onDelete props = true
  | ChatMessage.ClipboardWrite _ => ChatMessage.isSystem props = false
  end.
Proof.
  intros Hinv. unfold ChatMessage.react.
  destruct (ChatMessage.offered props st ev) eqn:Ho;
    [|intros H; inversion H].
  unfold ChatMessage.offered in Ho.
  destruct (ChatMessage.isEditing st) eqn:He.
  - destruct (Hinv eq_refl) as [Hu Hedit].
    destruct ev; try discriminate; cbn [ChatMessage.handle fst snd];
      try (intros H; inversion H; fail).
    rewrite Hedit. intros H. apply list_elem_of_singleton in H as ->.
    now repeat split.
  - destruct (ChatMessage.isSystem props) eqn:Hsys; [discriminate|].
    destruct ev; try discriminate; cbn [ChatMessage.handle fst snd];
      try (intros H; inversion H; fail).
    + apply andb_true_iff in Ho as [Ho Hdel].
      apply andb_true_iff in Ho as [Ho Hedit].
      apply andb_true_iff in Ho as [_ Hu].
      rewrite Hdel. intros H. apply list_elem_of_singleton in H as ->.
      now repeat split.
    + intros H. apply list_elem_of_singleton in H as ->. reflexivity.
    + intros H. apply list_elem_of_singleton in H as ->. reflexivity.
Qed.

Lemma ChatMessage_calls_of_session (props : ChatMessage.Props)
  (evs : list ChatMessage.UiEvent) (st : ChatMessage.State)
  (c : ChatMessage.Call) :
  (ChatMessage.isEditing st = true →
   ChatMessage.isUser props = true ∧ ChatMessage.onEdit props = true) →
  c ∈ (ChatMessage.session props st evs).2 →
  match c with
  | ChatMessage.CallOnEdit id _ =>
      id = Message.id (ChatMessage.message props)
      ∧ ChatMessage.isUser props = true ∧ ChatMessage.onEdit props = true
  | ChatMessage.CallOnDelete id =>
      id = Message.id (ChatMessage.message props)
      ∧ ChatMessage.isUser props = true ∧ ChatMessage.onDelete props = true
  | ChatMessage.ClipboardWrite _ => ChatMessage.isSystem props = false
  end.
Proof.
  revert st. induction evs as [|ev evs IH]; intros st Hinv.
  - intros H. inversion H.
  - cbn [ChatMessage.session].
    pose proof (ChatMessage_editing_user props st ev Hinv) as Hnext.
    pose proof (ChatMessage_calls_of_react props st ev c Hinv) as Hnow.
    destruct (ChatMessage.react props st ev) as [st1 calls1].
    specialize (IH st1 Hnext).
    destruct (ChatMessage.session props st1 evs) as [st2 calls2].
    cbn [fst snd] in *. intros H.
    apply elem_of_app in H as [H | H]; [exact (Hnow H) | exact (IH H)].
Qed.

(** X15. Whatever the user does to a chat message, in whatever order,
    clicks on an action bar that is on its way out included: a call of
    [onEdit] or of [onDelete] carries the id of the message, and is made
    only for a message of the user; the clipboard is written only for a
    message of the user or of the assistant; and a system message makes no
    call at all. *)
Theorem ChatMessage_callbacks (props : ChatMessage.Props)
  (evs : list ChatMessage.UiEvent) :
  let calls := (ChatMessage.session props (ChatMessage.initial props) evs).2 in
  (∀ id content, ChatMessage.CallOnEdit id content ∈ calls →
     id = Message.id (ChatMessage.message props)
     ∧ Message.role (ChatMessage.message props) = role_user
     ∧ ChatMessage.onEdit props = true)
  ∧ (∀ id, ChatMessage.CallOnDelete id ∈ calls →
       id = Message.id (ChatMessage.message props)
       ∧ Message.role (ChatMessage.message props) = role_user
       ∧ ChatMessage.onDelete props = true)
  ∧ (∀ text, ChatMessage.ClipboardWrite text ∈ calls →
       Message.role (ChatMessage.message props) ≠ role_system)
  ∧ (Message.role (ChatMessage.message props) = role_system → calls = []).
Proof.
  intros calls.
  assert (Hall := λ c, ChatMessage_calls_of_session props evs
                         (ChatMessage.initial props) c
                         (λ H : false = true, ltac:(discriminate H))).
  fold calls in Hall.
  assert (Hrole : ChatMessage.isUser props = true →
                  Message.role (ChatMessage.message props) = role_user).
  { unfold ChatMessage.isUser.
    now destruct (Message.role (ChatMessage.message props)). }
  assert (Hsys : ChatMessage.isSystem props = false →
                 Message.role (ChatMessage.message props) ≠ role_system).
  { unfold ChatMessage.isSystem. intros H E. rewrite E in H. discriminate H. }
  repeat apply conj.
  - intros id content H. apply Hall in H as (-> & Hu & He). auto.
  - intros id H. apply Hall in H as (-> & Hu & Hd). auto.
  - intros text H. apply Hall in H. auto.
  - intros E. destruct calls as [|c calls']; [reflexivity|].
    specialize (Hall c (list_elem_of_here c calls')).
    destruct c as [id ?|id|text].
    + destruct Hall as (_ & Hu & _). apply Hrole in Hu. congruence.
    + destruct Hall as (_ & Hu & _). apply Hrole in Hu. congruence.
    + apply Hsys in Hall. contradiction.
Qed.

Lemma ChatMessage_callbacks_witness :
  let props :=
    {| ChatMessage.message :=
         {| Message.id := js "1"; Message.content := js "hello";
            Message.role := role_user;
            Message.timestamp := js "2024-01-01T00:00:00.000Z" |};
       ChatMessage.onEdit := true;
       ChatMessage.onDelete := true |} in
  let evs := [ChatMessage.MouseEnter; ChatMessage.MouseLeave;
              ChatMessage.ClickDelete; ChatMessage.ExitComplete;
              ChatMessage.ClickDelete] in
  (ChatMessage.session props (ChatMessage.initial props) evs).2
  = [ChatMessage.CallOnDelete (js "1")]
  ∧ ∀ id, ChatMessage.CallOnDelete id
          ∈ (ChatMessage.session props (ChatMessage.initial props) evs).2 →
          id = js "1".
Proof.
  intros props evs. split; [reflexivity|].
  destruct (ChatMessage_callbacks props evs) as (_ & H & _).
  intros id Hid. now destruct (H id Hid) as [-> _].
Defined.

(** ** Invariants of [localStorage] over a session *)

Ltac frame_step close :=
  match goal with
  | |- Keeps _ (_ ≫= _) => apply Keeps_bind; [|intros ?]
  | |- Keeps _ (try_catch _ _) => apply Keeps_try_catch; [|intros ?]
  | |- Keeps _ (try_finally _ _) => apply Keeps_try_finally
  | |- Keeps _ (modify _) => apply Keeps_modify; intros ? ?; close
  | |- Keeps _ (get _) => apply Keeps_get
  | |- Keeps _ (await _) => apply Keeps_await
  | |- Keeps _ (if ?b then _ else _) => destruct b
  | |- Keeps _ (match ?x with _ => _ end) => destruct x
  | |- Keeps _ (Ret _) => apply Keeps_Ret
  | |- Keeps _ (Throw _) => apply Keeps_Throw
  | |- Keeps _ (DateNow _) => apply Keeps_DateNow; intros ?
  | |- Keeps _ (NewDateISO _) => apply Keeps_NewDateISO; intros ?
  | |- Keeps _ (JwtDecode _ _) => apply Keeps_JwtDecode; intros ?
  end.

Ltac unfold_operations :=
  unfold sendMessage, deleteConversation, createNewConversation,
    AuthProvider_init, login, register, logout, loadEffect,
    loadConversation, appendExchange, jwtDecode, searchEffect,
    searchObserver, searchQueryFn,
    api_get, api_post, api_delete, localStorage_getItem,
    localStorage_setItem, localStorage_removeItem, invalidateQueries,
    toast_success, toast_error, console_error.

Lemma step_keeps (P : World → Prop) (env : Env) (a : Action) (w : World) :
  Keeps P (perform a w) → Keeps P searchEffect →
  (∀ c w, P w → P (setCurrentConversation c w)) →
  (∀ w, P w → P (tick w)) → (∀ e w, P w → P (emit e w)) →
  (∀ w, P w → P (meanwhile env w)) →
  P w → P (step env a w).
Proof.
  intros Ha Hs Hc Ht He Hm Hw. unfold step.
  apply run_keeps; auto.
  apply Keeps_bind; [|intros _; exact Hs].
  apply Keeps_try_catch; [|intros _; apply Keeps_Ret].
  now apply Keeps_rendered.
Qed.

Ltac close_otherKeys :=
  match goal with
  | H : otherKeysKept ?st ?w |- otherKeysKept ?st _ =>
      first
        [ exact H
        | let k := fresh "k" in
          let Ha := fresh "Ha" in
          let Hr := fresh "Hr" in
          intros k Ha Hr;
          cbn [localStorage setLocalStorage];
          first [ rewrite lookup_insert_ne by congruence
                | rewrite lookup_delete_ne by congruence ];
          exact (H k Ha Hr) ]
  end.

Lemma Keeps_otherKeys_perform (st : gmap jsstring jsstring) (a : Action)
  (w : World) :
  Keeps (otherKeysKept st) (perform a w).
Proof.
  destruct a; cbn [perform]; unfold_operations;
    repeat frame_step ltac:(idtac; close_otherKeys).
Qed.

Lemma Keeps_otherKeys_searchEffect (st : gmap jsstring jsstring) :
  Keeps (otherKeysKept st) searchEffect.
Proof.
  unfold_operations. unfold get.
  apply Keeps_bind; [apply Keeps_Sync; [auto | intros; apply Keeps_Ret]|].
  intros q.
  apply Keeps_bind; [apply Keeps_Sync; [auto | intros; apply Keeps_Ret]|].
  intros c. repeat frame_step ltac:(idtac; close_otherKeys).
Qed.

(** X16. The client reads and writes [localStorage] under the keys of
    the two tokens only.  In every state of a session of the page, in which
    whatever else happens during the requests leaves the other entries
    alone, the entry of [localStorage] under any other key is the one that
    the browser had when the page was loaded. *)
Theorem storage_other_keys_kept (st : gmap jsstring jsstring)
  (history : list (Env * Action)) :
  Forall (λ ea, ∀ w, otherKeysKept st w → otherKeysKept st (meanwhile ea.1 w))
    history →
  ∀ k, k ≠ js "access_token" → k ≠ js "refresh_token" →
       localStorage (exec history (initialWorld st)) !! k = st !! k.
Proof.
  intros H.
  assert (Hinv : ∀ w, otherKeysKept st w → otherKeysKept st (exec history w)).
  { induction H as [|[env a] history Hq _ IH]; intros w Hw; cbn [exec].
    - exact Hw.
    - apply IH. apply step_keeps; auto.
      + apply Keeps_otherKeys_perform.
      + apply Keeps_otherKeys_searchEffect. }
  apply Hinv. intros k _ _. reflexivity.
Qed.

Lemma storage_other_keys_kept_witness :
  let w := exec [(returning, Login (js "ann") (js "pw"));
                 (returning, SendMessage (js "hello"));
                 (returning, Logout)] (initialWorld themed) in
  localStorage w !! js "theme" = Some (js "dark").
Proof.
  intros w.
  apply (storage_other_keys_kept themed
           [(returning, Login (js "ann") (js "pw"));
            (returning, SendMessage (js "hello"));
            (returning, Logout)]).
  - repeat (constructor; [intros w' Hw'; exact Hw'|]). constructor.
  - discriminate.
  - discriminate.
Defined.

Lemma step_unfold (env : Env) (a : Action) (w : World) :
  step env a w =
  snd (run env searchEffect
         (snd (run env (rendered (renders env) (perform a w)) w))).
Proof.
  unfold step. rewrite run_bind, run_try_catch.
  destruct (run env (rendered (renders env) (perform a w)) w)
    as [[x|e] w']; reflexivity.
Qed.

Lemma run_discard {A : Type} (env : Env) (m : Proc A) (w : World) :
  snd (run env (m ≫= λ _, Ret tt) w) = snd (run env m w).
Proof.
  rewrite run_bind. destruct (run env m w) as [[x|e] w']; reflexivity.
Qed.

Ltac close_same :=
  match goal with
  | H : ?P ?w |- ?P _ => exact H
  end.

Lemma truthyStr_true_false (s : jsstring) : truthyStr s = false → s = [].
Proof. now destruct s. Qed.

Lemma tokensPaired_storeTokens (d : ResponseData) (w : World) :
  tokensPaired (storeTokens d w).
Proof.
  unfold tokensPaired.
  rewrite storeTokens_access, storeTokens_refresh. split; eauto.
Qed.

Lemma tokensPaired_purged (w w' : World) :
  localStorage w' = purged (localStorage w) → tokensPaired w'.
Proof.
  intros E. unfold tokensPaired. rewrite E, purged_access, purged_refresh.
  split; intros [x H]; discriminate H.
Qed.

(** The operations of the session provider leave the conversation alone. *)
Lemma idStable_session (a : Action) (w : World) :
  match a with
  | Mount | Login _ _ | Register _ _ _ | Logout => idStable (perform a w)
  | _ => True
  end.
Proof.
  destruct a; try exact I; intros i; cbn [perform]; unfold_operations;
    repeat frame_step ltac:(idtac; close_same).
Qed.

Lemma tokensPaired_perform (env : Env) (a : Action) (w : World) :
  (∀ w, tokensPaired w → tokensPaired (meanwhile env w)) →
  tokensPaired w →
  tokensPaired (snd (run env (rendered (renders env) (perform a w)) w)).
Proof.
  intros Hm Hw.
  assert (Hkeep : ∀ (m : Proc unit), Keeps tokensPaired m →
                    tokensPaired (snd (run env (rendered (renders env) m) w))).
  { intros m Hk. apply run_keeps; auto. apply Keeps_rendered; auto. }
  pose proof (idStable_session a w) as Hst.
  destruct a; cbn [perform]; cbn [perform] in Hst.
  - apply Hkeep. repeat frame_step ltac:(idtac; close_same).
  - apply Hkeep. repeat frame_step ltac:(idtac; close_same).
  - apply Hkeep. unfold_operations.
    repeat frame_step ltac:(idtac; close_same).
  - apply Hkeep. unfold_operations.
    repeat frame_step ltac:(idtac; close_same).
  - apply Hkeep. unfold_operations.
    repeat frame_step ltac:(idtac; close_same).
  - (* the mount effect *)
    rewrite run_rendered_stable by exact Hst.
    destruct (localStorage w !! js "access_token") as [token|] eqn:Hs.
    + destruct (truthyStr token) eqn:Ht.
      * destruct (decode env token) as [c|] eqn:Hd.
        -- now rewrite (run_init_decoded env w token c Hs Ht Hd).
        -- rewrite (run_init_undecodable env w token Hs Ht Hd).
           now apply (tokensPaired_purged w).
      * apply truthyStr_true_false in Ht. subst token.
        now rewrite (run_init_no_token env w) by (right; exact Hs).
    + now rewrite (run_init_no_token env w) by (left; exact Hs).
  - (* login *)
    rewrite run_rendered_stable by exact Hst.
    rewrite run_discard, run_login. cbv zeta.
    assert (H1 : tokensPaired
                   (resumed env w (tokenConfig username password))).
    { apply Hm. exact Hw. }
    destruct (reply env w _) as [d|e]; [|exact H1].
    assert (H3 : tokensPaired
      (resumed env
         (storeTokens d (resumed env w (tokenConfig username password)))
         profileConfig)).
    { apply Hm. apply (tokensPaired_storeTokens d). }
    destruct (reply env _ profileConfig); exact H3.
  - (* register *)
    rewrite run_rendered_stable by exact Hst.
    rewrite run_discard, run_register. cbv zeta.
    assert (H1 : tokensPaired
                   (resumed env w (registerConfig email username password))).
    { apply Hm. exact Hw. }
    destruct (reply env w _); exact H1.
  - (* logout *)
    rewrite run_rendered_stable by exact Hst.
    rewrite run_logout. now apply (tokensPaired_purged w).
Qed.

(** X17. The two tokens are stored together and removed together.  When
    the page is loaded with both tokens or with neither in
    [localStorage], the same holds in every state of a session of the
    page, as long as whatever else happens during the requests keeps it
    so. *)
Theorem tokens_stay_paired (st : gmap jsstring jsstring)
  (history : list (Env * Action)) :
  (is_Some (st !! js "access_token") ↔ is_Some (st !! js "refresh_token")) →
  Forall (λ ea, ∀ w, tokensPaired w → tokensPaired (meanwhile ea.1 w))
    history →
  let w := exec history (initialWorld st) in
  is_Some (localStorage w !! js "access_token")
  ↔ is_Some (localStorage w !! js "refresh_token").
Proof.
  intros Hst H.
  assert (Hinv : ∀ w, tokensPaired w → tokensPaired (exec history w)).
  { induction H as [|[env a] history Hq _ IH]; intros w Hw; cbn [exec].
    - exact Hw.
    - apply IH. rewrite step_unfold.
      apply run_keeps; auto.
      + unfold_operations. unfold get.
        apply Keeps_bind;
          [apply Keeps_Sync; [auto | intros; apply Keeps_Ret]|]. intros q.
        apply Keeps_bind;
          [apply Keeps_Sync; [auto | intros; apply Keeps_Ret]|]. intros c.
        repeat frame_step ltac:(idtac; close_same).
      + now apply tokensPaired_perform. }
  exact (Hinv (initialWorld st) Hst).
Qed.

Lemma tokens_stay_paired_witness :
  let w := exec [(flaky, Login (js "ann") (js "pw"));
                 (flaky, Mount)] (initialWorld ∅) in
  is_Some (localStorage w !! js "access_token")
  ↔ is_Some (localStorage w !! js "refresh_token").
Proof.
  apply (tokens_stay_paired ∅).
  - rewrite !lookup_empty. split; intros [x H]; discriminate H.
  - repeat (constructor; [intros w' Hw'; exact Hw'|]). constructor.
Defined.

(** ** From login to the later requests *)

Lemma Keeps_token_perform (a : jsstring) (act : Action) (w : World) :
  sessionAction act = false →
  Keeps (λ w, localStorage w !! js "access_token" = Some a) (perform act w).
Proof.
  destruct act; try discriminate; intros _; cbn [perform];
    unfold_operations; repeat frame_step ltac:(idtac; close_same).
Qed.

Lemma Keeps_token_searchEffect (a : jsstring) :
  Keeps (λ w, localStorage w !! js "access_token" = Some a) searchEffect.
Proof.
  unfold_operations. unfold get.
  apply Keeps_bind; [apply Keeps_Sync; [auto | intros; apply Keeps_Ret]|].
  intros q.
  apply Keeps_bind; [apply Keeps_Sync; [auto | intros; apply Keeps_Ret]|].
  intros c. repeat frame_step ltac:(idtac; close_same).
Qed.

(** X18. After a [login] whose token request succeeded with a non-empty
    access token, and until the next [login], [logout] or load of the page,
    a request whose url contains neither [token] nor [login] leaves with
    that token as bearer credential in every state of the session, whether
    or not the profile request of the [login] succeeded; this as long as
    nothing else that happens during the requests changes the stored
    access token. *)
Theorem requests_after_login_authenticated (env : Env) (w : World)
  (username password a : jsstring) (refresh : JsValue)
  (history : list (Env * Action)) (cfg : Config) :
  reply env w (tokenConfig username password)
  = Fulfilled (TokenData (JsStr a) refresh) →
  a ≠ [] →
  Forall (λ ea, ∀ w', localStorage (meanwhile ea.1 w') !! js "access_token"
                      = localStorage w' !! js "access_token")
    ((env, Login username password) :: history) →
  Forall (λ ea, sessionAction ea.2 = false) history →
  urlIncludes cfg (js "token") = false →
  urlIncludes cfg (js "login") = false →
  let w' := exec ((env, Login username password) :: history) w in
  Authorization (outbound w' cfg) = Some (js "Bearer " ++ a).
Proof.
  intros Ht Hne Hquiet Hstore Hu1 Hu2 w'. subst w'.
  apply outbound_bearer; try assumption.
  apply Forall_cons in Hquiet as [Hq Hquiet]. cbn [fst] in Hq.
  cbn [exec].
  assert (Hlogin : localStorage (step env (Login username password) w)
                   !! js "access_token" = Some a).
  { rewrite step_unfold.
    apply (run_keeps (λ w, localStorage w !! js "access_token" = Some a));
      [auto | auto | intros w' Hw'; now rewrite Hq
      | apply Keeps_token_searchEffect |].
    rewrite run_rendered_stable
      by exact (idStable_session (Login username password) w).
    cbn [perform]. rewrite run_discard, run_login. cbv zeta. rewrite Ht.
    set (w2 := storeTokens (TokenData (JsStr a) refresh)
                 (resumed env w (tokenConfig username password))).
    assert (Hw3 : localStorage (resumed env w2 profileConfig)
                  !! js "access_token" = Some a).
    { unfold resumed. rewrite Hq. cbn [localStorage emit].
      apply (storeTokens_access (TokenData (JsStr a) refresh)). }
    destruct (reply env w2 profileConfig); exact Hw3. }
  revert Hlogin. generalize (step env (Login username password) w).
  induction history as [|[env1 act] history IH]; intros w1 Hw1; cbn [exec].
  - exact Hw1.
  - apply Forall_cons in Hquiet as [Hq1 Hquiet].
    apply Forall_cons in Hstore as [Hs1 Hstore]. cbn [fst snd] in Hq1, Hs1.
    apply IH; [exact Hquiet | exact Hstore |].
    apply (step_keeps (λ w, localStorage w !! js "access_token" = Some a));
      [ now apply Keeps_token_perform | apply Keeps_token_searchEffect
      | auto | auto | auto | intros w' Hw'; now rewrite Hq1 | exact Hw1 ].
Qed.

Lemma requests_after_login_authenticated_witness :
  let w := exec [(flaky, Login (js "ann") (js "pw"));
                 (searching, SetCurrentConversation (Some conv7));
                 (searching, SendMessage (js "hello"))] (initialWorld ∅) in
  Authorization (outbound w (sendConfig conv7 (js "again")))
  = Some (js "Bearer abc").
Proof.
  apply (requests_after_login_authenticated flaky (initialWorld ∅)
           (js "ann") (js "pw") (js "abc") (JsStr (js "xyz"))
           [(searching, SetCurrentConversation (Some conv7));
            (searching, SendMessage (js "hello"))]);
    [ reflexivity | discriminate
    | repeat (constructor; [intros w'; reflexivity|]); constructor
    | repeat (constructor; [reflexivity|]); constructor
    | reflexivity | reflexivity ].
Defined.
